(** * Serial-to-websocket bridge: player registry, router and relay

    A shallow embedding of [console/python websocket_bridge.py].

    Python values are embedded as follows.
    - [str] is a sequence of Unicode code points: [pystr := list N].
    - [bytes] is [list byte].
    - [int] is [Z]; the [set] objects are [gset]; the [players] dict is an
      insertion-ordered association list with the dict operations below
      (Python dicts iterate in insertion order).
    - A [serial.Serial] object is a reference (a [nat]) into a store that
      records which objects are open: the scanner and the relay share the
      object, so closing it in one place is seen in the other.
    - An exception is a value of [exn]; code that can raise lives in the
      [result] monad, and a [try]/[except] is a match on the result.
    - Between two [await]s a coroutine runs alone. The scanner and the
      relay are given piece by piece, each piece touching the registry
      between two [await]s; [event] and [run] interleave the pieces. An
      exception that leaves a coroutine ends that coroutine only: what it
      had done to the global state stays, and the other coroutines go on.
      An [outcome] keeps all three: the state, the sends, the exception.
    - The source names no Python version, and [asyncio.wait] changed with
      3.11: [python] tells the two behaviours apart, and every statement
      below is about both unless it says otherwise.
    The [print] calls are not modelled. *)

From Stdlib Require Import QArith.
From stdpp Require Import base decidable option numbers list sets gmap strings.
From Stdlib Require Import Strings.Ascii Strings.Byte.

Local Open Scope Z_scope.
#[local] Set Warnings "-clear-no-such-hyp".

(** ** Exceptions and the [result] monad *)

Inductive exn : Set :=
  | KeyError
  | ValueError
  | TypeError
  | AttributeError
  | JSONDecodeError
  | RecursionError
  | UnicodeDecodeError
  | UnicodeEncodeError
  | SerialException.

Inductive result (A : Type) : Type :=
  | Ok (a : A)
  | Raise (e : exn).
Arguments Ok {A} a.
Arguments Raise {A} e.

(** Sequencing: an exception skips the rest of the block. This is the
    [x ← m; k] notation below. *)
#[global] Instance result_bind : MBind result := λ A B k m,
  match m with
  | Ok a => k a
  | Raise e => Raise e
  end.
#[global] Instance result_ret : MRet result := λ A a, Ok a.

(** ** Text *)

Definition pystr := list N.
Definition bytes := list byte.

(** An ASCII literal as a [str]. *)
Definition str (s : string) : pystr :=
  N_of_ascii <$> String.list_ascii_of_string s.

(** The double quote, which has no escape-free literal. *)
Definition dquote : pystr := [34%N].

(** [needle in hay] for two [str] operands: substring search. *)
Fixpoint starts_with (needle hay : pystr) : bool :=
  match needle, hay with
  | [], _ => true
  | _ :: _, [] => false
  | a :: needle', b :: hay' => bool_decide (a = b) && starts_with needle' hay'
  end.

Fixpoint str_contains (needle hay : pystr) : bool :=
  starts_with needle hay ||
  match hay with
  | [] => false
  | _ :: hay' => str_contains needle hay'
  end.

(** [str.isspace] on one code point, the set that [str.strip()] removes. *)
Definition py_isspace (c : N) : bool :=
  ((9 <=? c) && (c <=? 13) || (28 <=? c) && (c <=? 32)
   || (c =? 133) || (c =? 160) || (c =? 5760)
   || (8192 <=? c) && (c <=? 8202)
   || (c =? 8232) || (c =? 8233) || (c =? 8239) || (c =? 8287)
   || (c =? 12288))%N.

Fixpoint lstrip (s : pystr) : pystr :=
  match s with
  | [] => []
  | c :: s' => if py_isspace c then lstrip s' else s
  end.

Definition rstrip (s : pystr) : pystr := reverse (lstrip (reverse s)).

(** [s.strip()]: whitespace is removed at both ends. *)
Definition strip (s : pystr) : pystr := rstrip (lstrip s).

(** *** UTF-8 *)

Definition is_surrogate (c : N) : bool := ((55296 <=? c) && (c <=? 57343))%N.

Definition byte_of (n : N) : byte :=
  default x00 (Byte.of_N (n `mod` 256)%N).

(** The UTF-8 encoding of one code point; [None] for a surrogate or a value
    above U+10FFFF. *)
Definition utf8_encode_char (c : N) : option bytes :=
  (if c <? 128 then Some [byte_of c]
   else if c <? 2048 then
     Some [byte_of (192 + c / 64); byte_of (128 + c `mod` 64)]
   else if c <? 65536 then
     if is_surrogate c then None
     else Some [byte_of (224 + c / 4096);
                byte_of (128 + (c / 64) `mod` 64);
                byte_of (128 + c `mod` 64)]
   else if c <? 1114112 then
     Some [byte_of (240 + c / 262144);
           byte_of (128 + (c / 4096) `mod` 64);
           byte_of (128 + (c / 64) `mod` 64);
           byte_of (128 + c `mod` 64)]
   else None)%N.

(** [s.encode('utf-8')]. *)
Fixpoint utf8_encode (s : pystr) : result bytes :=
  match s with
  | [] => Ok []
  | c :: s' =>
      match utf8_encode_char c with
      | Some bs => rest ← utf8_encode s'; Ok (bs ++ rest)
      | None => Raise UnicodeEncodeError
      end
  end.

(** The code points a websocket text frame or a decoded line can hold. *)
Definition unicode_scalar (c : N) : Prop :=
  (c < 1114112)%N ∧ is_surrogate c = false.

Definition is_cont (b : N) : bool := ((128 <=? b) && (b <=? 191))%N.

(** [b.decode('utf-8')], strict: overlong forms, surrogates, values above
    U+10FFFF and truncated sequences are errors. *)
Fixpoint utf8_decode_N (bs : list N) : result pystr :=
  match bs with
  | [] => Ok []
  | b0 :: r0 =>
      (if b0 <? 128 then rest ← utf8_decode_N r0; Ok (b0 :: rest)
       else if (194 <=? b0) && (b0 <=? 223) then
         match r0 with
         | b1 :: r1 =>
             if is_cont b1 then
               rest ← utf8_decode_N r1;
               Ok (((b0 - 192) * 64 + (b1 - 128)) :: rest)
             else Raise UnicodeDecodeError
         | _ => Raise UnicodeDecodeError
         end
       else if (224 <=? b0) && (b0 <=? 239) then
         match r0 with
         | b1 :: b2 :: r2 =>
             let c := (b0 - 224) * 4096 + (b1 - 128) * 64 + (b2 - 128) in
             if is_cont b1 && is_cont b2 && (2048 <=? c) && negb (is_surrogate c)
             then rest ← utf8_decode_N r2; Ok (c :: rest)
             else Raise UnicodeDecodeError
         | _ => Raise UnicodeDecodeError
         end
       else if (240 <=? b0) && (b0 <=? 244) then
         match r0 with
         | b1 :: b2 :: b3 :: r3 =>
             let c := (b0 - 240) * 262144 + (b1 - 128) * 4096
                      + (b2 - 128) * 64 + (b3 - 128) in
             if is_cont b1 && is_cont b2 && is_cont b3
                && (65536 <=? c) && (c <? 1114112)
             then rest ← utf8_decode_N r3; Ok (c :: rest)
             else Raise UnicodeDecodeError
         | _ => Raise UnicodeDecodeError
         end
       else Raise UnicodeDecodeError)%N
  end.

Definition utf8_decode (bs : bytes) : result pystr :=
  utf8_decode_N (Byte.to_N <$> bs).

(** ** Configuration *)

Definition MAX_PLAYERS : Z := 4.

(** ** The slot allocator *)

(** [range(lo, hi)]. *)
Definition range (lo hi : Z) : list Z := seqZ lo (hi - lo).

(** The [for i in ...: if i not in assigned_player_nums: return i] loop;
    falling off the end returns [None]. *)
Fixpoint first_unassigned (assigned_player_nums : gset Z) (candidates : list Z)
  : option Z :=
  match candidates with
  | [] => None
  | i :: rest =>
      if bool_decide (i ∉ assigned_player_nums) then Some i
      else first_unassigned assigned_player_nums rest
  end.

Definition get_available_player_num (assigned_player_nums : gset Z) : option Z :=
  first_unassigned assigned_player_nums (range 1 (MAX_PLAYERS + 1)).


(** ** JSON values *)

(** A Python [float]: a finite double is a rational number. *)
Inductive pyfloat : Type :=
  | FNum (q : Q)
  | FInf
  | FNegInf
  | FNaN.

(** What [json.loads] returns. [JObj] holds the items of the dict. *)
#[local] Set Warnings "-register-all".
Inductive json : Type :=
  | JNull
  | JBool (b : bool)
  | JInt (n : Z)
  | JFloat (x : pyfloat)
  | JStr (s : pystr)
  | JArr (xs : list json)
  | JObj (items : list (pystr * json)).

(** The text [json.dumps(v)], kept symbolic. *)
Inductive wstext : Type :=
  | Dumps (v : json).

(** ** Dicts with [str] keys, in insertion order *)

Section dict.
Context {V : Type}.

(** [d.get(k)] *)
Fixpoint dict_get (k : pystr) (d : list (pystr * V)) : option V :=
  match d with
  | [] => None
  | (k', v) :: d' => if bool_decide (k' = k) then Some v else dict_get k d'
  end.

(** [k in d] *)
Definition dict_in (k : pystr) (d : list (pystr * V)) : bool :=
  match dict_get k d with
  | Some _ => true
  | None => false
  end.

(** [d[k]] *)
Definition dict_getitem (k : pystr) (d : list (pystr * V)) : result V :=
  match dict_get k d with
  | Some v => Ok v
  | None => Raise KeyError
  end.

(** [d[k] = v]: an existing key keeps its place, a new one goes last. *)
Fixpoint dict_set (k : pystr) (v : V) (d : list (pystr * V))
  : list (pystr * V) :=
  match d with
  | [] => [(k, v)]
  | (k', v') :: d' =>
      if bool_decide (k' = k) then (k, v) :: d'
      else (k', v') :: dict_set k v d'
  end.

(** [del d[k]] *)
Fixpoint dict_del (k : pystr) (d : list (pystr * V))
  : result (list (pystr * V)) :=
  match d with
  | [] => Raise KeyError
  | (k', v') :: d' =>
      if bool_decide (k' = k) then Ok d'
      else d'' ← dict_del k d'; Ok ((k', v') :: d'')
  end.

Definition keys (d : list (pystr * V)) : list pystr := fst <$> d.
Definition values (d : list (pystr * V)) : list V := snd <$> d.
End dict.

(** [s.remove(x)] on a set. *)
Definition set_remove `{Countable A} (x : A) (s : gset A) : result (gset A) :=
  if bool_decide (x ∈ s) then Ok (s ∖ {[x]}) else Raise KeyError.

(** ** Global state *)

Record player_info : Type := {
  player_num : Z;
  serial_conn : nat;
}.

Record bridge : Type := {
  connected_clients : gset nat;
  players : list (pystr * player_info);
  assigned_player_nums : gset Z;
  (** the store of [serial.Serial] objects: which are open, and the
      identity the next one gets *)
  open_serials : gset nat;
  next_serial : nat;
}.

Definition initial : bridge :=
  {| connected_clients := ∅; players := []; assigned_player_nums := ∅;
     open_serials := ∅; next_serial := 0 |}.

Definition is_open (ser : nat) (st : bridge) : bool :=
  bool_decide (ser ∈ open_serials st).

(** [ser.close()] *)
Definition serial_close (ser : nat) (st : bridge) : bridge :=
  {| connected_clients := connected_clients st;
     players := players st;
     assigned_player_nums := assigned_player_nums st;
     open_serials := open_serials st ∖ {[ser]};
     next_serial := next_serial st |}.

(** [serial.Serial(port, SERIAL_BAUDRATE, timeout=1)] when it succeeds: a
    new object, open. *)
Definition serial_open (st : bridge) : nat * bridge :=
  (next_serial st,
   {| connected_clients := connected_clients st;
      players := players st;
      assigned_player_nums := assigned_player_nums st;
      open_serials := {[next_serial st]} ∪ open_serials st;
      next_serial := S (next_serial st) |}).

(** Assignment to the two registry globals. *)
Definition set_registry (ps : list (pystr * player_info)) (nums : gset Z)
    (st : bridge) : bridge :=
  {| connected_clients := connected_clients st;
     players := ps;
     assigned_player_nums := nums;
     open_serials := open_serials st;
     next_serial := next_serial st |}.

Definition set_clients (cs : gset nat) (st : bridge) : bridge :=
  {| connected_clients := cs;
     players := players st;
     assigned_player_nums := assigned_player_nums st;
     open_serials := open_serials st;
     next_serial := next_serial st |}.

(** The two lines of [register_client] that touch the client set. *)
Definition register_client_enter (websocket : nat) (st : bridge) : bridge :=
  set_clients ({[websocket]} ∪ connected_clients st) st.

Definition register_client_finally (websocket : nat) (st : bridge)
  : result bridge :=
  cs ← set_remove websocket (connected_clients st); Ok (set_clients cs st).

(** ** Broadcast to the websocket clients *)

(** One [client.send(message)]. *)
Definition send : Type := nat * wstext.

(** The interpreter, as far as this program can tell: up to Python 3.10
    [asyncio.wait] takes coroutine objects (with a deprecation warning
    since 3.8); from Python 3.11 on it raises [TypeError] for them. *)
Inductive python : Set :=
  | Python310    (* Python 3.10 and earlier *)
  | Python311.   (* Python 3.11 and later *)

(** [asyncio.wait(aws)] for a list of [client.send] coroutines. An empty
    collection is refused first. Where the coroutines are accepted, a
    send that fails stays inside its own task; where they are refused,
    none of them is ever run. *)
Definition asyncio_wait (py : python) (aws : list send) : result (list send) :=
  match aws with
  | [] => Raise ValueError
  | _ :: _ =>
      match py with
      | Python310 => Ok aws
      | Python311 => Raise TypeError
      end
  end.

Definition broadcast (py : python) (connected_clients : gset nat)
    (message : wstext) : result (list send) :=
  if bool_decide (size connected_clients ≠ 0%nat) then
    asyncio_wait py
      ((λ client, (client, message)) <$> elements connected_clients)
  else Ok [].

Definition status_envelope (status : string) (player : Z) (port : pystr)
  : wstext :=
  Dumps (JObj [(str "status", JStr (str status));
               (str "player", JInt player);
               (str "port", JStr port)]).

Definition data_envelope (player : Z) (line : pystr) : wstext :=
  Dumps (JObj [(str "player", JInt player); (str "data", JStr line)]).

(** ** Python operators on JSON values *)

(** [key in data] for a [str] key: dict membership, list membership,
    substring of a [str]; the other JSON values are not containers. *)
Definition py_in (key : pystr) (data : json) : result bool :=
  match data with
  | JObj items => Ok (dict_in key items)
  | JArr xs =>
      Ok (existsb (λ x, match x with
                        | JStr s => bool_decide (s = key)
                        | _ => false
                        end) xs)
  | JStr s => Ok (str_contains key s)
  | _ => Raise TypeError
  end.

(** [data.get(key)]: only a dict has the method. *)
Definition py_get (key : pystr) (data : json) : result json :=
  match data with
  | JObj items => Ok (default JNull (dict_get key items))
  | _ => Raise AttributeError
  end.

(** [n == v] for an [int] n: numbers compare by value, [True] is 1 and
    [False] is 0, anything else is unequal. *)
Definition py_int_eq (n : Z) (v : json) : bool :=
  match v with
  | JInt m => bool_decide (n = m)
  | JBool b => bool_decide (n = if b then 1 else 0)
  | JFloat (FNum q) => Qeq_bool (inject_Z n) q
  | _ => false
  end.

(** ** Inbound router: [handle_websocket_message] *)

(** One call of [ser.write]: the object, the bytes, and whether it raised. *)
Record write_call : Type := {
  w_ser : nat;
  w_data : bytes;
  w_raised : bool;
}.

Section Router.
(** [json.loads], and the serial objects on which [write] raises. *)
Variable json_loads : pystr → result json.
Variable write_raises : nat → bool.

(** [ser.write(message.encode('utf-8') + b'\n')] *)
Definition serial_write (ser : nat) (message : pystr)
  : result write_call :=
  data ← utf8_encode message;
  Ok {| w_ser := ser; w_data := data ++ [x0a];
        w_raised := write_raises ser |}.

(** The body of the inner [try] of both loops, with its [except]: the
    calls made, and whether the block ran to its end after a write. *)
Definition forward (message : pystr) (st : bridge) (player_info : player_info)
  : list write_call * bool :=
  let ser := serial_conn player_info in
  if is_open ser st then
    match serial_write ser message with
    | Ok call => ([call], negb (w_raised call))
    | Raise _ => ([], false)
    end
  else ([], false).

(** [for port, player_info in players.items()] of the targeted branch;
    the second component is [found_player]. *)
Fixpoint send_to_player (target_player_id : json) (message : pystr)
    (st : bridge) (items : list (pystr * player_info))
  : list write_call * bool :=
  match items with
  | [] => ([], false)
  | (port, player_info) :: rest =>
      if py_int_eq (player_num player_info) target_player_id then
        let '(calls, written) := forward message st player_info in
        if written then (calls, true)
        else
          let '(calls', found_player) :=
            send_to_player target_player_id message st rest in
          (calls ++ calls', found_player)
      else send_to_player target_player_id message st rest
  end.

(** [for port, player_info in players.items()] of the broadcast branch. *)
Fixpoint send_to_all (message : pystr) (st : bridge)
    (items : list (pystr * player_info)) : list write_call :=
  match items with
  | [] => []
  | (port, player_info) :: rest =>
      (forward message st player_info).1 ++ send_to_all message st rest
  end.

(** The body of the outer [try]. *)
Definition route (message : pystr) (st : bridge) : result (list write_call) :=
  data ← json_loads message;
  has_player_id ← py_in (str "player_id") data;
  if has_player_id : bool then
    target_player_id ← py_get (str "player_id") data;
    Ok (send_to_player target_player_id message st (players st)).1
  else
    Ok (send_to_all message st (players st)).

(** The whole handler: the calls of [ser.write] it makes. Both [except]
    clauses only print. *)
Definition handle_websocket_message (message : pystr) (st : bridge)
  : result (list write_call) :=
  match route message st with
  | Ok calls => Ok calls
  | Raise JSONDecodeError => Ok []
  | Raise _ => Ok []
  end.

(** The call that [forward] makes on an open serial object. *)
Definition call_on (payload : bytes) (ser : nat) : write_call :=
  {| w_ser := ser; w_data := payload ++ [x0a]; w_raised := write_raises ser |}.
End Router.


(** ** What a piece of a coroutine leaves behind *)

(** The global state after the piece, the sends it made, and the
    exception that left it, if one did. *)
Record outcome : Type := {
  after : bridge;
  sent : list send;
  raised : option exn;
}.

Definition returned (st : bridge) (sends : list send) : outcome :=
  {| after := st; sent := sends; raised := None |}.

Definition raising (st : bridge) (e : exn) : outcome :=
  {| after := st; sent := []; raised := Some e |}.

(** [await broadcast(message)] in state [st]. *)
Definition await_broadcast (py : python) (st : bridge) (message : wstext)
  : outcome :=
  match broadcast py (connected_clients st) message with
  | Ok sends => returned st sends
  | Raise e => raising st e
  end.

(** One piece after another: an exception in the first skips the second. *)
Definition and_then (o1 : outcome) (k : bridge → outcome) : outcome :=
  match raised o1 with
  | Some _ => o1
  | None =>
      let o2 := k (after o1) in
      {| after := after o2; sent := sent o1 ++ sent o2; raised := raised o2 |}
  end.

(** ** Outbound relay: [read_from_serial] *)

(** The local variables of one relay task. *)
Record relay : Type := {
  port_address : pystr;
  ser : nat;
  relay_player_num : Z;
}.

(** Lines 88 to 93: the task looks its binding up, and returns at once
    when there is none. *)
Definition relay_start (port_address : pystr) (st : bridge) : option relay :=
  match dict_get port_address (players st) with
  | Some player_info =>
      Some {| port_address := port_address;
              ser := serial_conn player_info;
              relay_player_num := player_num player_info |}
  | None => None
  end.

(** What the serial object answers in one turn of the loop. *)
Inductive poll : Type :=
  | PollRaises (e : exn)     (* [in_waiting] or [readline] raises *)
  | NothingWaiting           (* [in_waiting] is 0 *)
  | Line (raw : bytes).      (* [readline()] returns [raw] *)

Inductive loop_ctl : Set := Continue | Break.

(** Lines 99 to 103: the message the turn hands to [broadcast], if any. *)
Definition relay_message (r : relay) (p : poll) : result (option wstext) :=
  match p with
  | PollRaises e => Raise e
  | NothingWaiting => Ok None
  | Line raw =>
      text ← utf8_decode raw;
      let line := strip text in
      match line with
      | [] => Ok None
      | _ :: _ => Ok (Some (data_envelope (relay_player_num r) line))
      end
  end.

(** The body of the [try] in the loop. *)
Definition relay_body (py : python) (r : relay) (connected_clients : gset nat)
    (p : poll) : result (list send) :=
  message ← relay_message r p;
  match message with
  | None => Ok []
  | Some message => broadcast py connected_clients message
  end.

(** One turn of the loop, with its two [except] clauses. *)
Definition relay_iteration (py : python) (r : relay)
    (connected_clients : gset nat) (p : poll) : list send * loop_ctl :=
  match relay_body py r connected_clients p with
  | Ok sends => (sends, Continue)
  | Raise SerialException => ([], Break)
  | Raise _ => ([], Break)
  end.

(** The loop against a script: each entry is the state the turn runs in
    and the answer of the serial object. The result is the sends made and
    whether the loop was left (the script may end first). *)
Fixpoint relay_loop (py : python) (r : relay) (script : list (bridge * poll))
  : list send * bool :=
  match script with
  | [] => ([], false)
  | (st, p) :: rest =>
      if is_open (ser r) st then
        match relay_iteration py r (connected_clients st) p with
        | (sends, Continue) =>
            let '(sends', exited) := relay_loop py r rest in
            (sends ++ sends', exited)
        | (sends, Break) => (sends, true)
        end
      else ([], true)
  end.

(** Lines 115 to 117: what the cleanup does to the registry, and the
    message it then hands to [broadcast], if the port was still bound. *)
Definition relay_unbind (r : relay) (st : bridge)
  : result (bridge * option wstext) :=
  if dict_in (port_address r) (players st) then
    player_info ← dict_getitem (port_address r) (players st);
    assigned ← set_remove (player_num player_info) (assigned_player_nums st);
    players' ← dict_del (port_address r) (players st);
    Ok (set_registry players' assigned st,
        Some (status_envelope "disconnected" (relay_player_num r)
                (port_address r)))
  else Ok (st, None).

(** Lines 113 to 118: cleanup after the loop. *)
Definition relay_cleanup (py : python) (r : relay) (st : bridge) : outcome :=
  match relay_unbind r st with
  | Ok (st', Some message) => await_broadcast py st' message
  | Ok (st', None) => returned st' []
  | Raise e => raising st e
  end.

(** ** Connection supervisor: [com_port_scanner] *)

(** An entry of [serial.tools.list_ports.comports()]. *)
Record ListPortInfo : Type := {
  device : pystr;
  manufacturer : option pystr;
  description : option pystr;
}.

(** [a or b], for [a] a [str] or [None] and [b] a [str]: [a] when it is
    truthy, that is a non-empty [str]. *)
Definition py_or (a : option pystr) (b : pystr) : option pystr :=
  match a with
  | Some (_ :: _) => a
  | _ => Some b
  end.

(** [needle in x], for [x] a [str] or [None]: [None] is not iterable. *)
Definition py_in_text (needle : pystr) (x : option pystr) : result bool :=
  match x with
  | Some hay => Ok (str_contains needle hay)
  | None => Raise TypeError
  end.

(** The condition of the set comprehension on line 137. *)
Definition qualifies (p : ListPortInfo) : result bool :=
  py_in_text (str "Serial") (py_or (description p) (str "")).

(** [{p.device for p in available_ports if ...}] *)
Fixpoint esp_ports_of (available_ports : list ListPortInfo)
  : result (gset pystr) :=
  match available_ports with
  | [] => Ok ∅
  | p :: rest =>
      q ← qualifies p;
      s ← esp_ports_of rest;
      Ok (if q : bool then {[device p]} ∪ s else s)
  end.

(** The truth value of what [get_available_player_num] returned. *)
Definition py_truthy (x : option Z) : bool :=
  match x with
  | Some n => bool_decide (n ≠ 0)
  | None => false
  end.

(** Lines 141 to 148 of one turn of the loop over [esp_ports]: the
    registry after them, and the message for line 149 if the device was
    bound. [open_ok] tells whether [serial.Serial(...)] succeeds; when it
    does not, it raises [SerialException], which the [except] swallows. *)
Definition scan_bind (open_ok : bool) (port : pystr) (st : bridge)
  : bridge * option wstext :=
  if dict_in port (players st) then (st, None)
  else
    let player_num := get_available_player_num (assigned_player_nums st) in
    if py_truthy player_num then
      if open_ok then
        let num := default 0 player_num in
        let '(ser, st1) := serial_open st in
        (set_registry
           (dict_set port {| player_num := num; serial_conn := ser |}
              (players st1))
           ({[num]} ∪ assigned_player_nums st1) st1,
         Some (status_envelope "connected" num port))
      else (st, None)
    else (st, None).

(** Lines 141 to 154, the whole turn. The [except] takes
    [SerialException] only: an exception of [broadcast] leaves the loop
    and the scanner, before line 150 starts the relay of the device. *)
Definition scan_connect (py : python) (open_ok : bool) (port : pystr)
    (st : bridge) : outcome :=
  match scan_bind open_ok port st with
  | (st', Some message) => await_broadcast py st' message
  | (st', None) => returned st' []
  end.

(** Lines 160 to 163: one turn of the loop over [disconnected_ports]. *)
Definition scan_disconnect (port : pystr) (st : bridge) : bridge :=
  match dict_get port (players st) with
  | Some player_info => serial_close (serial_conn player_info) st
  | None => st
  end.

Fixpoint connect_all (py : python) (open_ok : pystr → bool)
    (ports : list pystr) (st : bridge) : outcome :=
  match ports with
  | [] => returned st []
  | port :: rest =>
      and_then (scan_connect py (open_ok port) port st)
        (connect_all py open_ok rest)
  end.

Definition disconnect_all (ports : list pystr) (st : bridge) : bridge :=
  foldl (λ st port, scan_disconnect port st) st ports.

(** One turn of [while True], run without another task in between.
    [set_iter] is the order in which the interpreter iterates a set of
    [str], which Python leaves open. *)
Definition com_port_scanner_cycle (py : python)
    (set_iter : gset pystr → list pystr) (open_ok : pystr → bool)
    (available_ports : list ListPortInfo) (st : bridge) : outcome :=
  match esp_ports_of available_ports with
  | Raise e => raising st e
  | Ok esp_ports =>
      and_then (connect_all py open_ok (set_iter esp_ports) st)
        (λ st1,
           let connected_ports : gset pystr :=
             list_to_set (keys (players st1)) in
           let disconnected_ports := connected_ports ∖ esp_ports in
           returned (disconnect_all (set_iter disconnected_ports) st1) [])
  end.

(** ** Interleavings *)

(** What can happen to the registry between two [await] points. The
    scanner appears twice: as a whole cycle, and turn by turn, since the
    [await broadcast] inside its first loop lets other tasks in. *)
Inductive event : Type :=
  | ScanCycle (set_iter : gset pystr → list pystr) (open_ok : pystr → bool)
      (available_ports : list ListPortInfo)
  | ScanConnect (open_ok : bool) (port : pystr)
  | ScanDisconnect (port : pystr)
  | RelayCleanup (r : relay)
  | Clients (cs : gset nat).

Definition step (py : python) (ev : event) (st : bridge) : outcome :=
  match ev with
  | ScanCycle set_iter open_ok available_ports =>
      com_port_scanner_cycle py set_iter open_ok available_ports st
  | ScanConnect open_ok port => scan_connect py open_ok port st
  | ScanDisconnect port => returned (scan_disconnect port st) []
  | RelayCleanup r => relay_cleanup py r st
  | Clients cs => returned (set_clients cs st) []
  end.

(** A run: the state it ends in, the sends made, and the exceptions that
    ended a coroutine on the way. The run goes on after such an
    exception, with the state the coroutine left. Which coroutines are
    still alive is not kept: a run may hold a step of the scanner after
    the scanner has ended, so there are more runs here than the program
    has. *)
Record history : Type := {
  final : bridge;
  delivered : list send;
  crashes : list exn;
}.

Fixpoint run (py : python) (evs : list event) (st : bridge) : history :=
  match evs with
  | [] => {| final := st; delivered := []; crashes := [] |}
  | ev :: rest =>
      let o := step py ev st in
      let h := run py rest (after o) in
      {| final := final h;
         delivered := sent o ++ delivered h;
         crashes := option_list (raised o) ++ crashes h |}
  end.

(** The player numbers and the serial objects of the bindings, in dict
    order. *)
Definition slots (st : bridge) : list Z := player_num <$> values (players st).
Definition serials (st : bridge) : list nat :=
  serial_conn <$> values (players st).

(** ** The registry invariant *)

(** The keys of [players] are distinct (it is a dict); no player number is
    bound twice; [assigned_player_nums] holds exactly the bound numbers;
    these lie in 1..MAX_PLAYERS; every binding has a serial object of its
    own, created earlier. *)
Definition registry_ok (st : bridge) : Prop :=
  NoDup (keys (players st))
  ∧ NoDup (slots st)
  ∧ assigned_player_nums st = list_to_set (slots st)
  ∧ Forall (λ n, 1 ≤ n ≤ MAX_PLAYERS) (slots st)
  ∧ NoDup (serials st)
  ∧ Forall (λ s, (s < next_serial st)%nat) (serials st).

#[global] Instance registry_ok_dec st : Decision (registry_ok st).
Proof. unfold registry_ok. apply _. Defined.

(** ** Named states, messages and conditions *)

(** The state after lines 145 to 147 for a port that is not yet a key. *)
Definition bound (port : pystr) (n : Z) (st : bridge) : bridge :=
  set_registry
    (players st ++ [(port, {| player_num := n; serial_conn := next_serial st |})])
    ({[n]} ∪ assigned_player_nums st) (serial_open st).2.

(** The state after a cleanup that found the binding. *)
Definition unbound (d : list (pystr * player_info)) (n : Z) (st : bridge)
  : bridge :=
  set_registry d (assigned_player_nums st ∖ {[n]}) st.

(** A message, once for every client of the state. *)
Definition to_every_client (st : bridge) (message : wstext) : list send :=
  (λ client, (client, message)) <$> elements (connected_clients st).

(** Whether [broadcast] gets through to the clients [cs]: always where
    [asyncio.wait] takes coroutines, and otherwise only when there is no
    client, so that [asyncio.wait] is not called. *)
Definition delivers (py : python) (cs : gset nat) : bool :=
  match py with
  | Python310 => true
  | Python311 => bool_decide (cs = ∅)
  end.

(** The one exception that a piece of the scanner or of a relay meets in
    a state that satisfies the invariant: the [TypeError] of
    [asyncio.wait] on Python 3.11 and later. *)
Definition wait_error_only (py : python) (e : exn) : Prop :=
  e = TypeError ∧ py = Python311.

(** A piece that keeps the invariant and meets no other exception. *)
Definition sound (py : python) (o : outcome) : Prop :=
  registry_ok (after o) ∧ ∀ e, raised o = Some e → wait_error_only py e.

(** What the first loop of the scanner does to the state: the bindings
    stay, serial objects are opened but none is closed, and an opened
    one is new; the client set is not touched. *)
Definition grows (st st' : bridge) : Prop :=
  (∀ p info, dict_get p (players st) = Some info →
             dict_get p (players st') = Some info)
  ∧ (next_serial st ≤ next_serial st')%nat
  ∧ (∀ s, s ∈ open_serials st' →
          s ∈ open_serials st ∨ (next_serial st ≤ s)%nat)
  ∧ open_serials st ⊆ open_serials st'
  ∧ (length (players st) ≤ length (players st'))%nat
  ∧ connected_clients st' = connected_clients st.

(** No serial object that was closed is open afterwards, unless it is a
    new one. *)
Definition reopens_nothing (st st' : bridge) : Prop :=
  (next_serial st ≤ next_serial st')%nat
  ∧ ∀ s, s ∈ open_serials st' →
         s ∈ open_serials st ∨ (next_serial st ≤ s)%nat.

(** Events that bind no device. *)
Definition binds_nothing (ev : event) : bool :=
  match ev with
  | ScanCycle _ _ _ => false
  | ScanConnect open_ok _ => negb open_ok
  | ScanDisconnect _ | RelayCleanup _ | Clients _ => true
  end.

(** The cleanup of a relay of [port]. *)
Definition is_cleanup_of (port : pystr) (ev : event) : bool :=
  match ev with
  | RelayCleanup r => bool_decide (port_address r = port)
  | _ => false
  end.

(** What a call of [write] made for [message] in [st] looks like: it goes
    to the open serial object of a binding, with the bytes of the message
    and a newline. *)
Definition routed_call (write_raises : nat → bool) (message : pystr)
    (st : bridge) (d : list (pystr * player_info)) (call : write_call) : Prop :=
  (∃ port info, (port, info) ∈ d ∧ serial_conn info = w_ser call)
  ∧ is_open (w_ser call) st = true
  ∧ (∃ payload, utf8_encode message = Ok payload
                ∧ w_data call = payload ++ [x0a])
  ∧ w_raised call = write_raises (w_ser call).

(** ** Client connections: [register_client] *)

(** How the [async for] over the websocket ends. *)
Inductive stream_end : Type :=
  | EndOfStream             (* the connection is closed normally *)
  | ConnectionClosedError   (* the iteration raises it *)
  | StreamRaises (e : exn). (* the iteration raises something else *)

(** The [async for] loop of lines 73 and 74 against a script: each entry
    is a message and the state in which it is handled, since other tasks
    run while the loop waits for the next message. The result is the calls
    of [ser.write] made, and the exception that leaves the loop, if any. *)
Fixpoint serve (json_loads : pystr → result json) (write_raises : nat → bool)
    (script : list (bridge * pystr)) : list write_call * option exn :=
  match script with
  | [] => ([], None)
  | (st, message) :: rest =>
      match handle_websocket_message json_loads write_raises message st with
      | Ok calls =>
          let '(calls', e) := serve json_loads write_raises rest in
          (calls ++ calls', e)
      | Raise e => ([], Some e)
      end
  end.

(** The coroutine after its first line (which is
    [register_client_enter]): the loop over [script], the end [fin] of
    the stream, and the [finally] block in [st_end], the state at that
    time. The result is the state it leaves, the calls of [ser.write]
    made, and the exception that leaves the coroutine, if any. The
    [except] clause takes [ConnectionClosedError] only; the [finally]
    block runs in every case, and an exception of its own replaces the
    one that was on its way. *)
Definition register_client (json_loads : pystr → result json)
    (write_raises : nat → bool) (websocket : nat)
    (script : list (bridge * pystr)) (fin : stream_end) (st_end : bridge)
  : bridge * list write_call * option exn :=
  let '(calls, e) := serve json_loads write_raises script in
  let pending :=
    match e, fin with
    | Some e, _ => Some e
    | None, StreamRaises e => Some e
    | None, _ => None
    end in
  match register_client_finally websocket st_end with
  | Ok st2 => (st2, calls, pending)
  | Raise e => (st_end, calls, Some e)
  end.

(** ** The whole relay: [read_from_serial] *)



(** ** Example data *)

Definition COM3 : pystr := str "COM3".
Definition COM4 : pystr := str "COM4".
Definition COM7 : pystr := str "COM7".

(** Two bound devices, both open, and one websocket client. *)
Definition two_players : bridge :=
  {| connected_clients := {[7%nat]};
     players := [(COM3, {| player_num := 1; serial_conn := 0 |});
                 (COM4, {| player_num := 2; serial_conn := 1 |})];
     assigned_player_nums := {[1; 2]};
     open_serials := {[0%nat; 1%nat]};
     next_serial := 2 |}.

(** Four bound devices: the registry is full. *)
Definition four_players : bridge :=
  {| connected_clients := {[7%nat]};
     players := [(COM3, {| player_num := 1; serial_conn := 0 |});
                 (COM4, {| player_num := 2; serial_conn := 1 |});
                 (str "COM5", {| player_num := 3; serial_conn := 2 |});
                 (str "COM6", {| player_num := 4; serial_conn := 3 |})];
     assigned_player_nums := {[1; 2; 3; 4]};
     open_serials := {[0%nat; 1%nat; 2%nat; 3%nat]};
     next_serial := 4 |}.

Definition relay_COM3 : relay :=
  {| port_address := COM3; ser := 0; relay_player_num := 1 |}.

(** The texts [{"player_id": 2, "x":1}] and [{"x":1}]. *)
Definition targeted_message : pystr :=
  str "{" ++ dquote ++ str "player_id" ++ dquote ++ str ": 2, "
  ++ dquote ++ str "x" ++ dquote ++ str ":1}".
Definition untargeted_message : pystr :=
  str "{" ++ dquote ++ str "x" ++ dquote ++ str ":1}".

(** A stand-in for [json.loads] that knows these two texts and rejects
    every other one. *)
Definition loads_two_messages (message : pystr) : result json :=
  if bool_decide (message = targeted_message) then
    Ok (JObj [(str "player_id", JInt 2); (str "x", JInt 1)])
  else if bool_decide (message = untargeted_message) then
    Ok (JObj [(str "x", JInt 1)])
  else Raise JSONDecodeError.



(** A stand-in for [json.loads] that parses every text to [data]. *)
Definition loads_constant (data : json) (message : pystr) : result json :=
  Ok data.

(** The bytes [b"  HI\n"]. *)
Definition leading_space_line : bytes := [x20; x20; x48; x49; x0a].

(** The bytes [b"HELLO\n"]. *)
Definition hello_line : bytes := [x48; x45; x4c; x4c; x4f; x0a].


(** What a turn of the relay would send for a decoded line if only
    trailing whitespace were trimmed, as the spec words it. *)
Definition spec_trailing_trim_sends (r : relay) (connected_clients : gset nat)
    (text : pystr) : list send :=
  match rstrip text with
  | [] => []
  | line =>
      (λ client, (client, data_envelope (relay_player_num r) line))
        <$> elements connected_clients
  end.

Definition no_description : ListPortInfo :=
  {| device := COM7; manufacturer := None; description := None |}.

Definition usb_serial : ListPortInfo :=
  {| device := COM3; manufacturer := None;
     description := Some (str "USB Serial") |}.

Definition usb_serial_COM7 : ListPortInfo :=
  {| device := COM7; manufacturer := None;
     description := Some (str "USB Serial") |}.

(** One client, and one scan that sees [usb_serial]. *)
Definition after_first_scan (py : python) : history :=
  run py [Clients {[7%nat]}; ScanCycle elements (λ _, true) [usb_serial]]
    initial.

(** ** Tactics *)

(** Settle the comparisons of a goal whose operands [lia] can order. *)
Local Ltac decide_tests :=
  repeat match goal with
    | |- context [(?a <? ?b)%N] =>
        first [ rewrite (proj2 (N.ltb_lt a b)) by lia
              | rewrite (proj2 (N.ltb_ge a b)) by lia ]
    | |- context [(?a <=? ?b)%N] =>
        first [ rewrite (proj2 (N.leb_le a b)) by lia
              | rewrite (proj2 (N.leb_gt a b)) by lia ]
    end.

(** Name the quotient and the remainder of [x] by 64. *)
Local Ltac split_digit x q m :=
  pose proof (N.div_mod x 64 ltac:(done));
  pose proof (N.mod_lt x 64 ltac:(done));
  set (q := (x / 64)%N) in *; set (m := (x `mod` 64)%N) in *;
  clearbody q m.

(** * Properties *)

(** ** Evaluation on small inputs *)

Example alloc_empty : get_available_player_num ∅ = Some 1.
Proof. vm_compute. reflexivity. Qed.
Example alloc_13 : get_available_player_num {[1; 3]} = Some 2.
Proof. vm_compute. reflexivity. Qed.
Example alloc_full : get_available_player_num {[1; 2; 3; 4]} = None.
Proof. vm_compute. reflexivity. Qed.
Example strip_both : strip (str "  HI  ") = str "HI".
Proof. vm_compute. reflexivity. Qed.
Example encode_decode :
  (utf8_encode [72; 233; 8364; 128512]%N ≫= utf8_decode)
  = Ok [72; 233; 8364; 128512]%N.
Proof. vm_compute. reflexivity. Qed.

Example qualifies_case_sensitive :
  qualifies usb_serial = Ok true
  ∧ qualifies {| device := COM4; manufacturer := None;
                 description := Some (str "usb serial") |} = Ok false
  ∧ qualifies {| device := COM4; manufacturer := None;
                 description := Some (str "") |} = Ok false.
Proof. repeat split. Qed.

(** On Python 3.10 and earlier: a device appears, speaks, vanishes, and
    another one takes its number. *)
Example end_to_end :
  ∃ st1 st2 st3 st4,
    after_first_scan Python310
    = {| final := st1;
         delivered := [(7%nat, status_envelope "connected" 1 COM3)];
         crashes := [] |}
    ∧ relay_start COM3 st1 = Some relay_COM3
    ∧ relay_loop Python310 relay_COM3 [(st1, Line hello_line)]
      = ([(7%nat, data_envelope 1 (str "HELLO"))], false)
    ∧ step Python310 (ScanCycle elements (λ _, true) []) st1 = returned st2 []
    ∧ relay_loop Python310 relay_COM3 [(st2, NothingWaiting)] = ([], true)
    ∧ relay_cleanup Python310 relay_COM3 st2
      = returned st3 [(7%nat, status_envelope "disconnected" 1 COM3)]
    ∧ players st3 = []
    ∧ scan_connect Python310 true COM4 st3
      = returned st4 [(7%nat, status_envelope "connected" 1 COM4)]
    ∧ players st4 = [(COM4, {| player_num := 1; serial_conn := 1 |})].
Proof. do 4 eexists. repeat split; vm_compute; reflexivity. Qed.

(** On Python 3.11 and later, with a client connected: the device is
    bound, the announcement raises, and that ends the scanner; the relay
    of the device is never started. *)
Example end_to_end_311 :
  ∃ st1,
    after_first_scan Python311
    = {| final := st1; delivered := []; crashes := [TypeError] |}
    ∧ players st1 = [(COM3, {| player_num := 1; serial_conn := 0 |})]
    ∧ is_open 0 st1 = true.
Proof. eexists. repeat split; vm_compute; reflexivity. Qed.

Example two_players_ok_check : bool_decide (registry_ok two_players) = true.
Proof. vm_compute. reflexivity. Qed.

(** ** Text *)

Lemma starts_with_spec needle hay :
  starts_with needle hay = true ↔ ∃ post, hay = needle ++ post.
Proof.
  revert hay. induction needle as [|a needle IH]; intros hay; simpl.
  - split; [intros _; by exists hay | done].
  - destruct hay as [|b hay].
    + split; [done | by intros [post ?]].
    + rewrite andb_true_iff, bool_decide_eq_true, IH. split.
      * intros [-> [post ->]]. by exists post.
      * intros [post [= -> ->]]. split; [done | by exists post].
Qed.

(** [str_contains] is Python's substring test. *)
Lemma str_contains_spec needle hay :
  str_contains needle hay = true ↔ ∃ pre post, hay = pre ++ needle ++ post.
Proof.
  induction hay as [|b hay IH].
  - simpl. rewrite orb_false_r, starts_with_spec. split.
    + intros [post ->]. by exists [], post.
    + intros [pre [post Heq]]. symmetry in Heq.
      apply app_eq_nil in Heq as [-> Heq]. by exists post.
  - cbn [str_contains]. rewrite orb_true_iff, starts_with_spec, IH. split.
    + intros [[post ->] | [pre [post ->]]].
      * by exists [], post.
      * by exists (b :: pre), post.
    + intros [[|c pre] [post Heq]].
      * left. by exists post.
      * right. injection Heq as -> ->. by exists pre, post.
Qed.

Lemma lstrip_spec s :
  ∃ pre, s = pre ++ lstrip s
         ∧ Forall (λ c, py_isspace c = true) pre
         ∧ ∀ c, head (lstrip s) = Some c → py_isspace c = false.
Proof.
  induction s as [|c s (pre & Heq & Hpre & Hhead)]; simpl.
  - exists []. by repeat split.
  - destruct (py_isspace c) eqn:Hc.
    + exists (c :: pre). split; [by rewrite Heq at 1|]. split; [by constructor|done].
    + exists []. repeat split; [constructor|]. by intros ? [= <-].
Qed.

Lemma rstrip_spec s :
  ∃ post, s = rstrip s ++ post
          ∧ Forall (λ c, py_isspace c = true) post
          ∧ ∀ c, last (rstrip s) = Some c → py_isspace c = false.
Proof.
  unfold rstrip. destruct (lstrip_spec (reverse s)) as (pre & Heq & Hpre & Hhead).
  exists (reverse pre). split; [|split].
  - by rewrite <- reverse_app, <- Heq, reverse_involutive.
  - by apply Forall_reverse.
  - intros c. rewrite last_reverse. apply Hhead.
Qed.

(** [strip] removes a run of whitespace at the front and one at the back,
    and what is left neither starts nor ends with whitespace. *)
Lemma strip_spec s :
  ∃ pre post, s = pre ++ strip s ++ post
    ∧ Forall (λ c, py_isspace c = true) pre
    ∧ Forall (λ c, py_isspace c = true) post
    ∧ (∀ c, head (strip s) = Some c → py_isspace c = false)
    ∧ (∀ c, last (strip s) = Some c → py_isspace c = false).
Proof.
  unfold strip.
  destruct (lstrip_spec s) as (pre & Heq & Hpre & Hhead).
  destruct (rstrip_spec (lstrip s)) as (post & Heq' & Hpost & Hlast).
  exists pre, post. split; [by rewrite <- Heq', <- Heq|].
  repeat split; [done..| |done].
  intros c Hc. apply Hhead.
  rewrite Heq'. destruct (rstrip (lstrip s)); [done|]. simpl in *. done.
Qed.

(** Trimming at the back only leaves the same emptiness. *)
Lemma strip_nil_iff s : strip s = [] ↔ rstrip s = [].
Proof.
  assert (Hall : ∀ t, lstrip t = [] ↔ Forall (λ c, py_isspace c = true) t).
  { induction t as [|c t IH]; simpl; [by split|].
    destruct (py_isspace c) eqn:Hc.
    - rewrite IH. split; [by constructor | by inversion 1].
    - split; [done|]. inversion 1; congruence. }
  assert (Hr : ∀ t, rstrip t = [] ↔ Forall (λ c, py_isspace c = true) t).
  { intros t. unfold rstrip. split.
    - intros H. apply (f_equal reverse) in H.
      rewrite reverse_involutive, reverse_nil in H.
      apply Hall in H. apply Forall_reverse in H.
      by rewrite reverse_involutive in H.
    - intros H. apply Forall_reverse, Hall in H. by rewrite H. }
  unfold strip. rewrite !Hr. split.
  - intros H. destruct (lstrip_spec s) as (pre & Heq & Hpre & _).
    rewrite Heq. by apply Forall_app.
  - intros H. destruct (lstrip_spec s) as (pre & Heq & _ & _).
    rewrite Heq in H. by apply Forall_app in H as [_ ?].
Qed.

(** ** UTF-8 *)

Lemma to_N_byte_of n : (n < 256)%N → Byte.to_N (byte_of n) = n.
Proof.
  intros Hn. unfold byte_of. rewrite N.mod_small by done.
  destruct (Byte.of_N n) as [b|] eqn:Hb; simpl.
  - by apply Byte.to_of_N.
  - apply Byte.of_N_None_iff in Hb. lia.
Qed.

(** Decoding reads back one encoded code point. *)
Lemma utf8_decode_char c bs rest :
  utf8_encode_char c = Some bs →
  utf8_decode_N ((Byte.to_N <$> bs) ++ rest)
  = (r ← utf8_decode_N rest; Ok (c :: r)).
Proof.
  unfold utf8_encode_char.
  destruct (N.ltb_spec c 128); [|destruct (N.ltb_spec c 2048);
    [|destruct (N.ltb_spec c 65536); [|destruct (N.ltb_spec c 1114112)]]].
  - intros [= <-]. cbn [fmap list_fmap app]. rewrite to_N_byte_of by lia.
    cbn [utf8_decode_N]. by decide_tests.
  - intros [= <-]. cbn [fmap list_fmap app].
    split_digit c q1 m0.
    rewrite !to_N_byte_of by lia.
    cbn [utf8_decode_N]. unfold is_cont. decide_tests. simpl.
    replace ((192 + q1 - 192) * 64 + (128 + m0 - 128))%N with c by lia.
    done.
  - destruct (is_surrogate c) eqn:Hsur; [done|]. intros [= <-].
    unfold is_surrogate in Hsur. cbn [fmap list_fmap app].
    replace (c / 4096)%N with (c / 64 / 64)%N
      by (by rewrite N.Div0.div_div).
    split_digit c q1 m0. split_digit q1 q2 m1.
    rewrite !to_N_byte_of by lia.
    cbn [utf8_decode_N]. unfold is_cont, is_surrogate.
    replace ((224 + q2 - 224) * 4096 + (128 + m1 - 128) * 64 + (128 + m0 - 128))%N
      with c by lia.
    rewrite Hsur. decide_tests. by simpl.
  - intros [= <-]. cbn [fmap list_fmap app].
    replace (c / 262144)%N with (c / 64 / 64 / 64)%N
      by (by rewrite !N.Div0.div_div).
    replace (c / 4096)%N with (c / 64 / 64)%N
      by (by rewrite N.Div0.div_div).
    split_digit c q1 m0. split_digit q1 q2 m1. split_digit q2 q3 m2.
    rewrite !to_N_byte_of by lia.
    cbn [utf8_decode_N]. unfold is_cont.
    replace ((240 + q3 - 240) * 262144 + (128 + m2 - 128) * 4096
             + (128 + m1 - 128) * 64 + (128 + m0 - 128))%N with c by lia.
    decide_tests. by simpl.
  - done.
Qed.

(** [decode] undoes [encode]. *)
Lemma utf8_decode_encode s bs :
  utf8_encode s = Ok bs → utf8_decode bs = Ok s.
Proof.
  unfold utf8_decode. revert bs. induction s as [|c s IH]; intros bs; simpl.
  - by intros [= <-].
  - destruct (utf8_encode_char c) as [bc|] eqn:Hc; [|done].
    destruct (utf8_encode s) as [bs'|] eqn:Hs; [|done]. simpl.
    intros [= <-]. rewrite fmap_app, (utf8_decode_char c) by done.
    by rewrite (IH bs').
Qed.

(** Every text without surrogates encodes. *)
Lemma utf8_encode_scalars s :
  Forall unicode_scalar s → ∃ bs, utf8_encode s = Ok bs.
Proof.
  induction 1 as [|c s [Hc Hsur] _ [bs IH]]; simpl; [by eexists|].
  assert (∃ bc, utf8_encode_char c = Some bc) as [bc ->].
  { unfold utf8_encode_char. rewrite Hsur.
    rewrite (proj2 (N.ltb_lt c 1114112)) by done.
    destruct (c <? 128)%N; [by eexists|].
    destruct (c <? 2048)%N; [by eexists|].
    destruct (c <? 65536)%N; by eexists. }
  rewrite IH. by eexists.
Qed.

(** ** The slot allocator *)

Lemma first_unassigned_Some (A : gset Z) (len : nat) (lo n : Z) :
  first_unassigned A (seqZ lo (Z.of_nat len)) = Some n ↔
  (lo ≤ n < lo + Z.of_nat len) ∧ (n ∉ A) ∧ ∀ m, lo ≤ m < n → m ∈ A.
Proof.
  revert lo. induction len as [|len IH]; intros lo.
  - simpl. split; [done | lia].
  - rewrite seqZ_cons by lia. cbn [first_unassigned].
    replace (Z.pred (Z.of_nat (S len))) with (Z.of_nat len) by lia.
    case_bool_decide as Hlo.
    + split.
      * intros [= <-]. split; [lia|]. split; [done | lia].
      * intros (Hn & _ & Hlow). f_equal.
        destruct (decide (lo = n)) as [|Hne]; [done|].
        destruct Hlo. apply Hlow. lia.
    + rewrite IH. split.
      * intros (Hn & HnA & Hlow). split; [lia|]. split; [done|].
        intros m Hm. destruct (decide (m = lo)) as [->|]; [done|].
        apply Hlow. lia.
      * intros (Hn & HnA & Hlow).
        assert (n ≠ lo) by (intros ->; done).
        split; [lia|]. split; [done|]. intros m Hm. apply Hlow. lia.
Qed.

Lemma first_unassigned_None (A : gset Z) (candidates : list Z) :
  first_unassigned A candidates = None ↔ ∀ i, i ∈ candidates → i ∈ A.
Proof.
  induction candidates as [|c candidates IH]; simpl.
  - split; [by intros _ i ?%elem_of_nil | done].
  - case_bool_decide as Hc.
    + split; [done|]. intros H. destruct Hc. apply H. left.
    + rewrite IH. split.
      * intros H i [->|?]%elem_of_cons; auto.
      * intros H i Hi. apply H. by right.
Qed.

Lemma range_players :
  range 1 (MAX_PLAYERS + 1) = seqZ 1 (Z.of_nat (Z.to_nat MAX_PLAYERS)).
Proof. reflexivity. Qed.

Lemma elem_of_range_players i :
  i ∈ range 1 (MAX_PLAYERS + 1) ↔ 1 ≤ i ≤ MAX_PLAYERS.
Proof. unfold range. rewrite elem_of_seqZ. lia. Qed.

Lemma get_available_Some (A : gset Z) (n : Z) :
  get_available_player_num A = Some n ↔
  (1 ≤ n ≤ MAX_PLAYERS) ∧ (n ∉ A) ∧ ∀ m, 1 ≤ m < n → m ∈ A.
Proof.
  unfold get_available_player_num. rewrite range_players, first_unassigned_Some.
  rewrite Z2Nat.id by done. split; intros (? & ? & ?); (split; [lia | done]).
Qed.

Lemma get_available_None (A : gset Z) :
  get_available_player_num A = None ↔ ∀ i, 1 ≤ i ≤ MAX_PLAYERS → i ∈ A.
Proof.
  unfold get_available_player_num. rewrite first_unassigned_None.
  split; intros H i Hi; apply H; by apply elem_of_range_players.
Qed.

(** ** Dicts *)

Section dict_facts.
Context {V : Type}.
Implicit Types (d : list (pystr * V)) (k : pystr) (v : V).

Lemma dict_get_None k d : dict_get k d = None ↔ k ∉ keys d.
Proof.
  induction d as [|[k' v'] d IH]; simpl.
  - split; [intros _ ?%elem_of_nil; done | done].
  - case_bool_decide as Hk.
    + subst. split; [done|]. intros H. destruct H. left.
    + rewrite IH. unfold keys. simpl. rewrite not_elem_of_cons.
      split; [by intros ? | by intros [_ ?]].
Qed.

Lemma dict_in_true k d : dict_in k d = true ↔ k ∈ keys d.
Proof.
  unfold dict_in. destruct (dict_get k d) eqn:H.
  - split; [|done]. intros _. destruct (decide (k ∈ keys d)) as [|Hn]; [done|].
    apply dict_get_None in Hn. congruence.
  - apply dict_get_None in H. split; [done | by intros ?].
Qed.

Lemma dict_in_false k d : dict_in k d = false ↔ k ∉ keys d.
Proof. rewrite <- dict_in_true. by destruct (dict_in k d). Qed.

Lemma dict_get_Some_elem k v d : dict_get k d = Some v → (k, v) ∈ d.
Proof.
  induction d as [|[k' v'] d IH]; simpl; [done|].
  case_bool_decide; [intros [= ->]; subst; left | intros ?; right; auto].
Qed.

Lemma dict_elem_get k v d : NoDup (keys d) → (k, v) ∈ d → dict_get k d = Some v.
Proof.
  induction d as [|[k' v'] d IH]; simpl; [by intros _ ?%elem_of_nil|].
  intros [Hk' Hd]%NoDup_cons [[= -> ->] | Hin]%elem_of_cons.
  - by rewrite bool_decide_eq_true_2.
  - case_bool_decide as Hk; [|auto]. subst. destruct Hk'.
    unfold keys. apply list_elem_of_fmap. by exists (k, v).
Qed.

(** A new key goes to the end. *)
Lemma dict_set_new k v d : k ∉ keys d → dict_set k v d = d ++ [(k, v)].
Proof.
  induction d as [|[k' v'] d IH]; simpl; [done|].
  unfold keys. simpl. intros [Hne Hd]%not_elem_of_cons.
  rewrite bool_decide_eq_false_2 by done. f_equal. by apply IH.
Qed.

(** Deleting a present key removes its one entry and keeps the rest in
    order. *)
Lemma dict_del_present k v d :
  NoDup (keys d) → dict_get k d = Some v →
  ∃ d1 d2, d = d1 ++ (k, v) :: d2 ∧ dict_del k d = Ok (d1 ++ d2)
           ∧ k ∉ keys (d1 ++ d2).
Proof.
  induction d as [|[k' v'] d IH]; simpl; [done|].
  intros [Hk' Hd]%NoDup_cons. case_bool_decide as Hk.
  - intros [= ->]. subst. by exists [], d.
  - intros Hget. destruct (IH Hd Hget) as (d1 & d2 & -> & Hdel & Hnot).
    exists ((k', v') :: d1), d2. rewrite Hdel. repeat split.
    unfold keys in *. simpl. rewrite not_elem_of_cons. split; [congruence | done].
Qed.
End dict_facts.


(** ** Broadcast *)

(** What [broadcast] does: where it gets through, it sends the message
    once to every connected client; where it does not, [asyncio.wait]
    raises [TypeError] and nothing is sent. The [ValueError] of an empty
    collection is never met. *)
Lemma broadcast_outcome (py : python) (cs : gset nat) (message : wstext) :
  broadcast py cs message
  = if delivers py cs
    then Ok ((λ client, (client, message)) <$> elements cs)
    else Raise TypeError.
Proof.
  unfold broadcast. case_bool_decide as Hsize.
  - destruct (elements cs) as [|c l] eqn:Hel.
    { apply elements_empty_inv in Hel. apply leibniz_equiv in Hel. subst.
      by rewrite size_empty in Hsize. }
    destruct py; simpl; [done|].
    rewrite bool_decide_eq_false_2; [done|].
    intros ->. by rewrite size_empty in Hsize.
  - assert (cs = ∅) as ->.
    { apply leibniz_equiv, size_empty_inv. lia. }
    rewrite elements_empty. by destruct py.
Qed.

Lemma await_broadcast_outcome (py : python) (st : bridge) (message : wstext) :
  await_broadcast py st message
  = if delivers py (connected_clients st)
    then returned st (to_every_client st message)
    else raising st TypeError.
Proof.
  unfold await_broadcast. rewrite broadcast_outcome.
  by destruct (delivers py (connected_clients st)).
Qed.

Lemma delivers_false py cs : delivers py cs = false → py = Python311.
Proof. by destruct py. Qed.

Lemma await_broadcast_sound py st message :
  registry_ok st → sound py (await_broadcast py st message).
Proof.
  intros Hok. rewrite await_broadcast_outcome.
  destruct (delivers py (connected_clients st)) eqn:Hd; split; simpl; try done.
  intros e [= <-]. split; [done | by eapply delivers_false].
Qed.

Lemma returned_sound py st sends : registry_ok st → sound py (returned st sends).
Proof. by split. Qed.

Lemma and_then_sound py o1 k :
  sound py o1 → (∀ st, registry_ok st → sound py (k st)) →
  sound py (and_then o1 k).
Proof.
  intros Ho1 Hk. pose proof Ho1 as [Hok1 He1]. unfold and_then.
  destruct (raised o1) eqn:Hr; [exact Ho1|].
  destruct (Hk _ Hok1) as [Hok2 He2]. by split.
Qed.

(** ** Steps of the registry *)

Lemma registry_ok_initial : registry_ok initial.
Proof.
  unfold registry_ok, slots, serials, initial. simpl.
  repeat split; try constructor.
Qed.

Lemma registry_ok_same_registry st st' :
  players st' = players st →
  assigned_player_nums st' = assigned_player_nums st →
  next_serial st' = next_serial st →
  registry_ok st → registry_ok st'.
Proof.
  unfold registry_ok, slots, serials. by intros -> -> ->.
Qed.

Lemma registry_ok_bound port n st :
  registry_ok st → port ∉ keys (players st) →
  n ∉ assigned_player_nums st → 1 ≤ n ≤ MAX_PLAYERS →
  registry_ok (bound port n st).
Proof.
  intros (Hkeys & Hslots & Hassigned & Hrange & Hsers & Hfresh) Hport Hn Hn'.
  unfold registry_ok, slots, serials, keys, values, bound in *. simpl.
  rewrite !fmap_app. simpl. rewrite Hassigned in Hn.
  rewrite not_elem_of_list_to_set in Hn.
  split; [|split; [|split; [|split; [|split]]]].
  - apply NoDup_app. split; [done|]. split; [|apply NoDup_singleton].
    intros k Hk ->%list_elem_of_singleton. done.
  - apply NoDup_app. split; [done|]. split; [|apply NoDup_singleton].
    intros m Hm ->%list_elem_of_singleton. done.
  - rewrite Hassigned, list_to_set_app_L. simpl. set_solver.
  - apply Forall_app. split; [done|]. by constructor.
  - apply NoDup_app. split; [done|]. split; [|apply NoDup_singleton].
    intros s Hs ->%list_elem_of_singleton.
    rewrite Forall_forall in Hfresh. apply Hfresh in Hs. lia.
  - apply Forall_app. split.
    + eapply Forall_impl; [exact Hfresh|]. simpl. lia.
    + constructor; [lia | constructor].
Qed.

Lemma scan_bind_cases open_ok port st :
  scan_bind open_ok port st = (st, None) ∨
  ∃ n, open_ok = true ∧ (port ∉ keys (players st))
       ∧ get_available_player_num (assigned_player_nums st) = Some n
       ∧ scan_bind open_ok port st
         = (bound port n st, Some (status_envelope "connected" n port)).
Proof.
  unfold scan_bind. destruct (dict_in port (players st)) eqn:Hin; [by left|].
  apply dict_in_false in Hin.
  destruct (get_available_player_num (assigned_player_nums st)) as [n|] eqn:Hn;
    [|by left].
  simpl. case_bool_decide as Hz; [|by left].
  destruct open_ok; [|by left].
  right. exists n. repeat split; [done|]. simpl.
  unfold bound. simpl. by rewrite dict_set_new.
Qed.

Lemma scan_bind_binds port n st :
  port ∉ keys (players st) →
  get_available_player_num (assigned_player_nums st) = Some n →
  scan_bind true port st
  = (bound port n st, Some (status_envelope "connected" n port)).
Proof.
  intros Hport Hn. unfold scan_bind.
  pose proof Hport as Hin. apply dict_in_false in Hin. rewrite Hin, Hn. simpl.
  apply get_available_Some in Hn as (? & _).
  rewrite bool_decide_eq_true_2 by lia.
  unfold bound. simpl. by rewrite dict_set_new.
Qed.

Lemma scan_bind_ok open_ok port st :
  registry_ok st → registry_ok (scan_bind open_ok port st).1.
Proof.
  intros Hok. destruct (scan_bind_cases open_ok port st)
    as [-> | (n & _ & Hport & Hn & ->)]; [done|]. simpl.
  apply get_available_Some in Hn as (? & ? & _). by apply registry_ok_bound.
Qed.

(** The turn of the scanner is its registry part followed by the
    announcement, if a device was bound. *)
Lemma scan_connect_after py open_ok port st :
  after (scan_connect py open_ok port st) = (scan_bind open_ok port st).1.
Proof.
  unfold scan_connect. destruct (scan_bind open_ok port st) as [st' [m|]];
    [|done].
  rewrite await_broadcast_outcome. by destruct (delivers _ _).
Qed.

Lemma scan_connect_nothing py open_ok port st :
  scan_bind open_ok port st = (st, None) →
  scan_connect py open_ok port st = returned st [].
Proof. intros H. unfold scan_connect. by rewrite H. Qed.

Lemma scan_connect_binds py port n st :
  port ∉ keys (players st) →
  get_available_player_num (assigned_player_nums st) = Some n →
  scan_connect py true port st
  = await_broadcast py (bound port n st) (status_envelope "connected" n port).
Proof.
  intros Hport Hn. unfold scan_connect. by rewrite (scan_bind_binds port n).
Qed.

Lemma scan_connect_sound py open_ok port st :
  registry_ok st → sound py (scan_connect py open_ok port st).
Proof.
  intros Hok. pose proof (scan_bind_ok open_ok port st Hok) as Hok'.
  unfold scan_connect. destruct (scan_bind open_ok port st) as [st' [m|]].
  - by apply await_broadcast_sound.
  - by apply returned_sound.
Qed.

Lemma scan_disconnect_ok port st :
  registry_ok st → registry_ok (scan_disconnect port st).
Proof.
  unfold scan_disconnect. destruct (dict_get port (players st)); [|done].
  by apply registry_ok_same_registry.
Qed.

Lemma relay_unbind_cases r st :
  registry_ok st →
  ((port_address r ∉ keys (players st)) ∧ relay_unbind r st = Ok (st, None)) ∨
  ∃ info d1 d2,
    players st = d1 ++ (port_address r, info) :: d2
    ∧ (port_address r ∉ keys (d1 ++ d2))
    ∧ dict_get (port_address r) (players st) = Some info
    ∧ relay_unbind r st
      = Ok (unbound (d1 ++ d2) (player_num info) st,
            Some (status_envelope "disconnected" (relay_player_num r)
                    (port_address r))).
Proof.
  intros (Hkeys & Hslots & Hassigned & _).
  unfold relay_unbind, dict_getitem.
  destruct (dict_in (port_address r) (players st)) eqn:Hin.
  - right. unfold dict_in in Hin.
    destruct (dict_get (port_address r) (players st)) as [info|] eqn:Hget; [|done].
    destruct (dict_del_present _ _ _ Hkeys Hget) as (d1 & d2 & Heq & Hdel & Hnot).
    exists info, d1, d2. repeat split; [done..|]. simpl.
    unfold set_remove. rewrite bool_decide_eq_true_2; last first.
    { rewrite Hassigned, elem_of_list_to_set. unfold slots, values.
      rewrite Heq, !fmap_app. simpl. set_solver. }
    simpl. by rewrite Hdel.
  - left. by apply dict_in_false in Hin.
Qed.

Lemma registry_ok_unbound port info d1 d2 st :
  registry_ok st → players st = d1 ++ (port, info) :: d2 →
  registry_ok (unbound (d1 ++ d2) (player_num info) st).
Proof.
  intros (Hkeys & Hslots & Hassigned & Hrange & Hsers & Hfresh) Heq.
  unfold registry_ok, slots, serials, keys, values, unbound in *. simpl.
  rewrite Heq in *. rewrite !fmap_app in *. simpl in *.
  apply NoDup_app in Hkeys as (? & Hk & [_ ?]%NoDup_cons).
  apply NoDup_app in Hslots as (? & Hs & [Hn2 ?]%NoDup_cons).
  apply NoDup_app in Hsers as (? & Hr & [_ ?]%NoDup_cons).
  apply Forall_app in Hrange as [? [_ ?]%Forall_cons].
  apply Forall_app in Hfresh as [? [_ ?]%Forall_cons].
  split; [|split; [|split; [|split; [|split]]]].
  - apply NoDup_app. repeat split; [done| |done].
    intros k Hk1 Hk2. apply (Hk k Hk1). by right.
  - apply NoDup_app. repeat split; [done| |done].
    intros k Hk1 Hk2. apply (Hs k Hk1). by right.
  - rewrite Hassigned, !list_to_set_app_L. simpl.
    assert (player_num info ∉ player_num <$> d1.*2).
    { intros Hin. apply (Hs _ Hin). left. }
    set_solver.
  - by apply Forall_app.
  - apply NoDup_app. repeat split; [done| |done].
    intros k Hk1 Hk2. apply (Hr k Hk1). by right.
  - by apply Forall_app.
Qed.

(** The cleanup in a state that satisfies the invariant: nothing when the
    port is not bound; otherwise the binding goes and the envelope is
    handed to [broadcast]. *)
Lemma relay_cleanup_cases py r st :
  registry_ok st →
  ((port_address r ∉ keys (players st))
   ∧ relay_cleanup py r st = returned st []) ∨
  ∃ info d1 d2,
    players st = d1 ++ (port_address r, info) :: d2
    ∧ (port_address r ∉ keys (d1 ++ d2))
    ∧ dict_get (port_address r) (players st) = Some info
    ∧ relay_cleanup py r st
      = await_broadcast py (unbound (d1 ++ d2) (player_num info) st)
          (status_envelope "disconnected" (relay_player_num r)
             (port_address r)).
Proof.
  intros Hok. unfold relay_cleanup.
  destruct (relay_unbind_cases r st Hok)
    as [[Hnot ->] | (info & d1 & d2 & Hp & Hnot & Hget & ->)].
  - by left.
  - right. by exists info, d1, d2.
Qed.

Lemma relay_cleanup_after py r st :
  registry_ok st →
  after (relay_cleanup py r st)
  = match relay_unbind r st with
    | Ok (st', _) => st'
    | Raise _ => st
    end.
Proof.
  intros Hok. unfold relay_cleanup.
  destruct (relay_unbind r st) as [[st' [m|]]|]; try done.
  rewrite await_broadcast_outcome. by destruct (delivers _ _).
Qed.

Lemma relay_cleanup_sound py r st :
  registry_ok st → sound py (relay_cleanup py r st).
Proof.
  intros Hok. destruct (relay_cleanup_cases py r st Hok)
    as [[_ ->] | (info & d1 & d2 & Hp & _ & _ & ->)].
  - by apply returned_sound.
  - apply await_broadcast_sound. by eapply registry_ok_unbound.
Qed.

(** ** The scanner's filter *)

Lemma qualifies_total p :
  qualifies p
  = Ok (match description p with
        | Some desc => str_contains (str "Serial") desc
        | None => false
        end).
Proof.
  unfold qualifies. destruct (description p) as [[|c desc]|]; reflexivity.
Qed.

Lemma esp_ports_of_total available_ports :
  ∃ esp_ports, esp_ports_of available_ports = Ok esp_ports
    ∧ ∀ port, port ∈ esp_ports ↔
        ∃ p, p ∈ available_ports ∧ device p = port ∧ qualifies p = Ok true.
Proof.
  induction available_ports as [|p rest (s & Heq & Hs)]; simpl.
  - exists ∅. split; [done|]. intros port. split; [set_solver|].
    by intros (p & ?%elem_of_nil & _).
  - rewrite Heq. pose proof (qualifies_total p) as Hq. rewrite Hq. simpl.
    eexists. split; [done|]. intros port.
    destruct (match description p with Some _ => _ | None => _ end) eqn:Hd.
    + rewrite elem_of_union, elem_of_singleton, Hs. split.
      * intros [-> | (p' & Hin & Hdev & Hq')].
        -- exists p. split; [left | done].
        -- exists p'. split; [by right | done].
      * intros (p' & [-> | Hin]%elem_of_cons & Hdev & Hq'); [by left|].
        right. by exists p'.
    + rewrite Hs. split.
      * intros (p' & Hin & Hdev & Hq'). exists p'. split; [by right | done].
      * intros (p' & [-> | Hin]%elem_of_cons & Hdev & Hq'); [congruence|].
        by exists p'.
Qed.

(** ** Whole cycles and runs *)

Lemma connect_all_sound py open_ok ports st :
  registry_ok st → sound py (connect_all py open_ok ports st).
Proof.
  revert st. induction ports as [|port rest IH]; intros st Hok; simpl.
  - by apply returned_sound.
  - apply and_then_sound; [by apply scan_connect_sound | done].
Qed.

Lemma disconnect_all_ok ports st :
  registry_ok st → registry_ok (disconnect_all ports st).
Proof.
  unfold disconnect_all. revert st.
  induction ports as [|port rest IH]; intros st Hok; simpl; [done|].
  by apply IH, scan_disconnect_ok.
Qed.

Lemma com_port_scanner_cycle_sound py set_iter open_ok available_ports st :
  registry_ok st →
  sound py (com_port_scanner_cycle py set_iter open_ok available_ports st).
Proof.
  intros Hok. unfold com_port_scanner_cycle.
  destruct (esp_ports_of_total available_ports) as (esp & -> & _).
  apply and_then_sound; [by apply connect_all_sound|].
  intros st1 Hok1. apply returned_sound. by apply disconnect_all_ok.
Qed.

Lemma step_sound py ev st : registry_ok st → sound py (step py ev st).
Proof.
  intros Hok. destruct ev; simpl.
  - by apply com_port_scanner_cycle_sound.
  - by apply scan_connect_sound.
  - apply returned_sound. by apply scan_disconnect_ok.
  - by apply relay_cleanup_sound.
  - apply returned_sound. by apply (registry_ok_same_registry st).
Qed.

(** A run keeps the invariant, and the only exception that ends a
    coroutine in it is that of [asyncio.wait]. *)
Lemma run_sound py evs st :
  registry_ok st →
  registry_ok (final (run py evs st))
  ∧ Forall (wait_error_only py) (crashes (run py evs st)).
Proof.
  revert st. induction evs as [|ev rest IH]; intros st Hok; simpl.
  - by split; [|constructor].
  - destruct (step_sound py ev st Hok) as [Hok1 He1].
    destruct (IH _ Hok1) as [Hok2 He2]. split; [done|].
    apply Forall_app. split; [|done].
    destruct (raised (step py ev st)) as [e|]; simpl; [|constructor].
    constructor; [by apply He1 | constructor].
Qed.

(** Distinct numbers between 1 and MAX_PLAYERS: at most MAX_PLAYERS of them. *)
Lemma registry_ok_length st :
  registry_ok st → (length (players st) ≤ Z.to_nat MAX_PLAYERS)%nat.
Proof.
  intros (_ & Hslots & _ & Hrange & _).
  assert (Hsub : slots st ⊆+ range 1 (MAX_PLAYERS + 1)).
  { apply NoDup_submseteq; [done|]. intros n Hn.
    rewrite Forall_forall in Hrange. apply elem_of_range_players. auto. }
  apply submseteq_length in Hsub.
  unfold slots, values in Hsub. rewrite !length_fmap in Hsub.
  unfold range in Hsub. rewrite length_seqZ in Hsub. exact Hsub.
Qed.

Lemma registry_ok_exclusive st port1 info1 port2 info2 :
  registry_ok st →
  (port1, info1) ∈ players st → (port2, info2) ∈ players st →
  player_num info1 = player_num info2 → port1 = port2 ∧ info1 = info2.
Proof.
  intros (_ & Hslots & _) H1 H2 Heq.
  apply list_elem_of_lookup in H1 as [i Hi], H2 as [j Hj].
  assert (i = j) as ->.
  { eapply NoDup_lookup; [exact Hslots | |];
      unfold slots, values; rewrite !list_lookup_fmap.
    - by rewrite Hi.
    - rewrite Hj. simpl. by rewrite Heq. }
  rewrite Hi in Hj. by injection Hj.
Qed.

Lemma dict_get_app_new {V} (k : pystr) (v : V) d :
  k ∉ keys d → dict_get k (d ++ [(k, v)]) = Some v.
Proof.
  induction d as [|[k' v'] d IH]; simpl.
  - intros _. by rewrite bool_decide_eq_true_2.
  - unfold keys. simpl. intros [Hne Hd]%not_elem_of_cons.
    rewrite bool_decide_eq_false_2 by done. by apply IH.
Qed.

(** ** Events that bind no device *)

Lemma step_binds_nothing py ev st :
  registry_ok st → binds_nothing ev = true →
  assigned_player_nums (after (step py ev st)) ⊆ assigned_player_nums st.
Proof.
  intros Hok Hev. destruct ev as [| open_ok port | port | r | cs]; simpl in *.
  - done.
  - destruct open_ok; [done|]. rewrite scan_connect_after.
    by destruct (scan_bind_cases false port st) as [-> | (? & ? & _)].
  - unfold scan_disconnect. by destruct (dict_get port (players st)).
  - rewrite relay_cleanup_after by done.
    destruct (relay_unbind_cases r st Hok)
      as [[_ ->] | (info & d1 & d2 & _ & _ & _ & ->)]; [done|].
    simpl. set_solver.
  - done.
Qed.

Lemma run_binds_nothing py evs st :
  registry_ok st → forallb binds_nothing evs = true →
  assigned_player_nums (final (run py evs st)) ⊆ assigned_player_nums st.
Proof.
  revert st. induction evs as [|ev rest IH]; intros st Hok; simpl; [done|].
  intros [Hev Hrest]%andb_true_iff.
  destruct (step_sound py ev st Hok) as [Hok1 _].
  pose proof (step_binds_nothing py ev st Hok Hev).
  pose proof (IH _ Hok1 Hrest). set_solver.
Qed.

(** ** The router *)

(** Two [int]s equal to the same JSON value are the same. *)
Lemma py_int_eq_inj a b v : py_int_eq a v = true → py_int_eq b v = true → a = b.
Proof.
  destruct v as [| bb | m | [q| | |] | | |]; simpl; try done.
  - intros ?%bool_decide_eq_true ?%bool_decide_eq_true. congruence.
  - intros ?%bool_decide_eq_true ?%bool_decide_eq_true. congruence.
  - intros Ha%Qeq_bool_iff Hb%Qeq_bool_iff.
    apply inject_Z_injective. by rewrite Ha, Hb.
Qed.

Section router_facts.
Variable json_loads : pystr → result json.
Variable write_raises : nat → bool.

Lemma forward_open message payload st info :
  utf8_encode message = Ok payload → is_open (serial_conn info) st = true →
  forward write_raises message st info
  = ([call_on write_raises payload (serial_conn info)], negb (write_raises (serial_conn info))).
Proof. intros Henc Hopen. unfold forward, serial_write. by rewrite Hopen, Henc. Qed.

Lemma forward_closed message st info :
  is_open (serial_conn info) st = false →
  forward write_raises message st info = ([], false).
Proof. intros Hopen. unfold forward. by rewrite Hopen. Qed.

Lemma send_to_player_absent target message st d :
  (∀ p i, (p, i) ∈ d → py_int_eq (player_num i) target = false) →
  send_to_player write_raises target message st d = ([], false).
Proof.
  induction d as [|[p i] d IH]; intros Hd; simpl; [done|].
  rewrite (Hd p i) by left. apply IH. intros p' i' Hin. apply (Hd p' i'). by right.
Qed.

Lemma send_to_player_unique target message payload st d s D info :
  py_int_eq s target = true → NoDup (keys d) →
  (D, info) ∈ d → player_num info = s →
  is_open (serial_conn info) st = true →
  (∀ p i, (p, i) ∈ d → player_num i = s → p = D) →
  utf8_encode message = Ok payload →
  (send_to_player write_raises target message st d).1
  = [call_on write_raises payload (serial_conn info)].
Proof.
  intros Htarget Hnodup Hin Hs Hopen Hone Henc.
  induction d as [|[p i] d IH]; simpl; [by apply elem_of_nil in Hin|].
  apply NoDup_cons in Hnodup as [Hp Hnodup].
  destruct (py_int_eq (player_num i) target) eqn:Hi.
  - assert (player_num i = s) as Hi' by (by eapply py_int_eq_inj).
    assert (p = D) as -> by (apply (Hone p i); [left | done]).
    assert (i = info) as ->.
    { apply elem_of_cons in Hin as [[= ->] | Hin]; [done|].
      destruct Hp. unfold keys. apply list_elem_of_fmap. by exists (D, info). }
    rewrite (forward_open _ payload) by done.
    destruct (write_raises (serial_conn info)); simpl; [|done].
    rewrite send_to_player_absent; [done|].
    intros p' i' Hin'. destruct (py_int_eq (player_num i') target) eqn:Hi''; [|done].
    destruct Hp. assert (player_num i' = s) by (by eapply py_int_eq_inj).
    assert (p' = D) as -> by (apply (Hone p' i'); [by right | done]).
    unfold keys. apply list_elem_of_fmap. by exists (D, i').
  - apply IH; [done| |].
    + apply elem_of_cons in Hin as [[= -> ->] | Hin]; [|done].
      subst s. congruence.
    + intros p' i' Hin'. apply Hone. by right.
Qed.

Lemma send_to_all_calls message payload st d :
  utf8_encode message = Ok payload →
  send_to_all write_raises message st d
  = call_on write_raises payload
      <$> filter (λ ser, is_open ser st = true) (serial_conn <$> values d).
Proof.
  intros Henc. induction d as [|[p i] d IH]; simpl; [done|].
  rewrite IH, filter_cons. destruct (is_open (serial_conn i) st) eqn:Hopen.
  - rewrite (forward_open _ payload) by done.
    by rewrite decide_True by done.
  - rewrite forward_closed by done. by rewrite decide_False by done.
Qed.
End router_facts.

(** * The claims *)

(** C1: whatever the scanner (whole cycles or single turns of its loops)
    and the relay cleanups do, in any order and with the client set
    changing in between, on either kind of interpreter, the registry then
    holds at most MAX_PLAYERS bindings, and two bindings with the same
    player number are the same binding. No step raises, except that on
    Python 3.11 and later a step that calls [broadcast] can end with the
    [TypeError] of [asyncio.wait]. *)
Theorem registry_bounded_and_exclusive (py : python) (evs : list event) :
  ∃ st,
    final (run py evs initial) = st
    ∧ Z.of_nat (length (players st)) ≤ MAX_PLAYERS
    ∧ (∀ port1 info1 port2 info2,
         (port1, info1) ∈ players st → (port2, info2) ∈ players st →
         player_num info1 = player_num info2 → port1 = port2 ∧ info1 = info2)
    ∧ Forall (wait_error_only py) (crashes (run py evs initial)).
Proof.
  destruct (run_sound py evs initial registry_ok_initial) as [Hok Hcrashes].
  eexists. split; [done|]. split; [|split; [|done]].
  - pose proof (registry_ok_length _ Hok). unfold MAX_PLAYERS in *. lia.
  - intros. by eapply registry_ok_exclusive.
Qed.

(** C2: [get_available_player_num] returns [n] exactly when [n] is the
    smallest number of 1..MAX_PLAYERS that is not assigned, and [None]
    exactly when all of 1..MAX_PLAYERS are assigned. *)
Theorem get_available_player_num_lowest_free (assigned : gset Z) :
  (∀ n, get_available_player_num assigned = Some n ↔
        (1 ≤ n ≤ MAX_PLAYERS) ∧ (n ∉ assigned)
        ∧ ∀ m, 1 ≤ m < n → m ∈ assigned)
  ∧ (get_available_player_num assigned = None ↔
     ∀ i, 1 ≤ i ≤ MAX_PLAYERS → i ∈ assigned).
Proof.
  split; [intros n; apply get_available_Some | apply get_available_None].
Qed.

(** C3: when the device that holds player number 1 is cleaned up by its
    relay, whatever follows without binding a device leaves number 1
    unassigned, and the next device the scanner then binds, whichever
    unbound port it is, gets number 1. This holds on either kind of
    interpreter; none of these steps raises, except with the [TypeError]
    of [asyncio.wait] on Python 3.11 and later. *)
Theorem slot_one_reused (py : python) (r : relay) (info : player_info)
    (st : bridge) (evs : list event) :
  registry_ok st →
  dict_get (port_address r) (players st) = Some info →
  player_num info = 1 →
  forallb binds_nothing evs = true →
  ∃ st1 st2,
    after (relay_cleanup py r st) = st1
    ∧ final (run py evs st1) = st2
    ∧ (1 ∉ slots st2)
    ∧ (∀ port_B, dict_in port_B (players st2) = false →
         dict_get port_B (players (after (scan_connect py true port_B st2)))
         = Some {| player_num := 1; serial_conn := next_serial st2 |})
    ∧ (∀ e, raised (relay_cleanup py r st) = Some e → wait_error_only py e)
    ∧ Forall (wait_error_only py) (crashes (run py evs st1))
    ∧ (∀ port_B e, raised (scan_connect py true port_B st2) = Some e →
         wait_error_only py e).
Proof.
  intros Hok Hget Hone Hevs.
  destruct (relay_cleanup_sound py r st Hok) as [Hok1 He1].
  destruct (run_sound py evs _ Hok1) as [Hok2 He2].
  pose proof (run_binds_nothing py evs _ Hok1 Hevs) as Hsub.
  set (st1 := after (relay_cleanup py r st)) in *.
  set (st2 := final (run py evs st1)) in *.
  assert (Hfree1 : 1 ∉ assigned_player_nums st1).
  { unfold st1. rewrite relay_cleanup_after by done.
    destruct (relay_unbind_cases r st Hok)
      as [[Hnot _] | (info' & d1 & d2 & _ & _ & Hget' & ->)].
    - apply dict_get_None in Hnot. congruence.
    - simpl. assert (info' = info) as -> by congruence. rewrite Hone.
      set_solver. }
  assert (Hfree : 1 ∉ assigned_player_nums st2) by set_solver.
  exists st1, st2. split; [done|]. split; [done|]. split; [|split; [|split; [|split]]].
  - destruct Hok2 as (_ & _ & Hassigned & _).
    by rewrite Hassigned, not_elem_of_list_to_set in Hfree.
  - intros port_B HB. apply dict_in_false in HB.
    assert (Hn : get_available_player_num (assigned_player_nums st2) = Some 1).
    { apply get_available_Some. split; [done|]. split; [done | lia]. }
    rewrite scan_connect_after, (scan_bind_binds port_B 1 st2 HB Hn). simpl.
    by apply dict_get_app_new.
  - done.
  - done.
  - intros port_B. by apply scan_connect_sound.
Qed.

Lemma slot_one_reused_witness :
  registry_ok two_players
  ∧ ∃ st1 st2,
      after (relay_cleanup Python311 relay_COM3 two_players) = st1
      ∧ final (run Python311 [ScanDisconnect COM4; ScanConnect false COM7] st1)
        = st2
      ∧ (1 ∉ slots st2)
      ∧ (∀ port_B, dict_in port_B (players st2) = false →
           dict_get port_B
             (players (after (scan_connect Python311 true port_B st2)))
           = Some {| player_num := 1; serial_conn := next_serial st2 |})
      ∧ (∀ e, raised (relay_cleanup Python311 relay_COM3 two_players) = Some e →
           wait_error_only Python311 e)
      ∧ Forall (wait_error_only Python311)
          (crashes (run Python311 [ScanDisconnect COM4; ScanConnect false COM7]
                      st1))
      ∧ (∀ port_B e,
           raised (scan_connect Python311 true port_B st2) = Some e →
           wait_error_only Python311 e).
Proof.
  assert (Hok : registry_ok two_players)
    by (apply (bool_decide_unpack _); vm_compute; exact I).
  split; [exact Hok|].
  apply (slot_one_reused Python311 relay_COM3
           {| player_num := 1; serial_conn := 0 |}
           two_players [ScanDisconnect COM4; ScanConnect false COM7] Hok);
    reflexivity.
Defined.

(** C4: when the message (a text without surrogates, as every websocket
    text frame is) parses to an object whose [player_id] equals, in
    Python's sense of ==, a player number bound to the one device D, and
    D's serial object is open, the handler makes exactly one call of
    [write]: on D's serial object, with the UTF-8 bytes of the message
    followed by a newline. No other serial object is written to. *)
Theorem targeted_routing (json_loads : pystr → result json)
    (write_raises : nat → bool) (message : pystr)
    (items : list (pystr * json)) (target : json) (st : bridge)
    (s : Z) (D : pystr) (info : player_info) :
  Forall unicode_scalar message →
  json_loads message = Ok (JObj items) →
  dict_get (str "player_id") items = Some target →
  py_int_eq s target = true →
  NoDup (keys (players st)) →
  dict_get D (players st) = Some info →
  player_num info = s →
  is_open (serial_conn info) st = true →
  (∀ port info', (port, info') ∈ players st → player_num info' = s → port = D) →
  ∃ payload,
    utf8_encode message = Ok payload
    ∧ utf8_decode payload = Ok message
    ∧ handle_websocket_message json_loads write_raises message st
      = Ok [{| w_ser := serial_conn info; w_data := payload ++ [x0a];
               w_raised := write_raises (serial_conn info) |}].
Proof.
  intros Htext Hloads Htarget Heq Hkeys HD Hs Hopen Hone.
  destruct (utf8_encode_scalars message Htext) as [payload Henc].
  exists payload. split; [done|]. split; [by apply utf8_decode_encode|].
  unfold handle_websocket_message, route. rewrite Hloads. simpl.
  unfold dict_in. rewrite Htarget. simpl.
  erewrite send_to_player_unique; [done..| | | | | ]; try done.
  by apply dict_get_Some_elem.
Qed.

Lemma targeted_routing_witness :
  ∃ payload,
    utf8_encode targeted_message = Ok payload
    ∧ utf8_decode payload = Ok targeted_message
    ∧ handle_websocket_message loads_two_messages (λ _, false) targeted_message
        two_players
      = Ok [{| w_ser := 1%nat; w_data := payload ++ [x0a]; w_raised := false |}].
Proof.
  apply (targeted_routing loads_two_messages (λ _, false) targeted_message
           [(str "player_id", JInt 2); (str "x", JInt 1)] (JInt 2)
           two_players 2 COM4 {| player_num := 2; serial_conn := 1 |});
    try (vm_compute; reflexivity).
  - apply (bool_decide_unpack _). vm_compute. exact I.
  - apply (bool_decide_unpack _). vm_compute. exact I.
  - intros port info' Hin Hnum.
    apply elem_of_cons in Hin as [[= -> ->] | Hin]; [done|].
    apply elem_of_cons in Hin as [[= -> ->] | Hin]; [done|].
    by apply elem_of_nil in Hin.
Defined.

(** C5: when the message (a text without surrogates) parses to an object
    without a [player_id] key, the handler calls [write] once on every
    bound serial object that is open, in dict order, with the UTF-8 bytes
    of the message followed by a newline; which of these calls raise
    changes nothing about the others. Closed serial objects are skipped. *)
Theorem broadcast_routing (json_loads : pystr → result json)
    (write_raises : nat → bool) (message : pystr)
    (items : list (pystr * json)) (st : bridge) :
  Forall unicode_scalar message →
  json_loads message = Ok (JObj items) →
  dict_get (str "player_id") items = None →
  ∃ payload,
    utf8_encode message = Ok payload
    ∧ utf8_decode payload = Ok message
    ∧ handle_websocket_message json_loads write_raises message st
      = Ok ((λ ser, {| w_ser := ser; w_data := payload ++ [x0a];
                       w_raised := write_raises ser |})
              <$> filter (λ ser, is_open ser st = true) (serials st)).
Proof.
  intros Htext Hloads Hkey.
  destruct (utf8_encode_scalars message Htext) as [payload Henc].
  exists payload. split; [done|]. split; [by apply utf8_decode_encode|].
  unfold handle_websocket_message, route. rewrite Hloads. simpl.
  unfold dict_in. rewrite Hkey. simpl.
  by rewrite (send_to_all_calls _ _ payload).
Qed.

Lemma broadcast_routing_witness :
  ∃ payload,
    utf8_encode untargeted_message = Ok payload
    ∧ utf8_decode payload = Ok untargeted_message
    ∧ handle_websocket_message loads_two_messages
        (λ ser, bool_decide (ser = 0%nat)) untargeted_message two_players
      = Ok ((λ ser, {| w_ser := ser; w_data := payload ++ [x0a];
                       w_raised := bool_decide (ser = 0%nat) |})
              <$> filter (λ ser, is_open ser two_players = true)
                    (serials two_players)).
Proof.
  apply (broadcast_routing loads_two_messages (λ ser, bool_decide (ser = 0%nat))
           untargeted_message [(str "x", JInt 1)] two_players);
    try (vm_compute; reflexivity).
  apply (bool_decide_unpack _). vm_compute. exact I.
Defined.

(** On the example state the first write raises and the second is still
    made. *)
Example broadcast_routing_first_write_raises :
  ∃ payload,
    utf8_encode untargeted_message = Ok payload
    ∧ handle_websocket_message loads_two_messages
        (λ ser, bool_decide (ser = 0%nat)) untargeted_message two_players
      = Ok [{| w_ser := 0%nat; w_data := payload ++ [x0a]; w_raised := true |};
            {| w_ser := 1%nat; w_data := payload ++ [x0a]; w_raised := false |}].
Proof. eexists. split; vm_compute; reflexivity. Qed.




(** C7: the cleanup of a relay, run twice. In a state that satisfies the
    registry invariant the first cleanup removes the binding of the port
    and frees its player number, if the port is bound, and hands the
    [disconnected] envelope to [broadcast]: where [broadcast] gets
    through (Python 3.10 and earlier, or no client connected) every client
    is sent the envelope; on Python 3.11 and later with a client connected
    [asyncio.wait] raises [TypeError], no envelope is sent, and the
    exception ends the relay with the binding already removed. A second
    cleanup for the same port, by any relay, changes nothing, sends
    nothing and raises nothing. *)
Theorem cleanup_twice (py : python) (r : relay) (st : bridge) :
  registry_ok st →
  ∃ st1,
    after (relay_cleanup py r st) = st1
    ∧ (∀ r', port_address r' = port_address r →
         relay_cleanup py r' st1 = returned st1 [])
    ∧ (∀ info, dict_get (port_address r) (players st) = Some info →
         dict_get (port_address r) (players st1) = None
         ∧ player_num info ∈ assigned_player_nums st
         ∧ assigned_player_nums st1
           = assigned_player_nums st ∖ {[player_num info]}
         ∧ relay_cleanup py r st
           = if delivers py (connected_clients st)
             then returned st1
                    (to_every_client st
                       (status_envelope "disconnected" (relay_player_num r)
                          (port_address r)))
             else raising st1 TypeError)
    ∧ (dict_get (port_address r) (players st) = None →
         relay_cleanup py r st = returned st []).
Proof.
  intros Hok.
  destruct (relay_cleanup_cases py r st Hok)
    as [[Hnot Hclean] | (info & d1 & d2 & Hp & Hnot & Hget & Hclean)].
  - exists st. rewrite Hclean. split; [done|]. split; [|split].
    + intros r' Hr'. unfold relay_cleanup, relay_unbind. rewrite Hr'.
      apply dict_in_false in Hnot. by rewrite Hnot.
    + intros info Hget. apply dict_get_None in Hnot. congruence.
    + done.
  - rewrite Hclean, await_broadcast_outcome.
    exists (unbound (d1 ++ d2) (player_num info) st).
    split; [by destruct (delivers _ _)|]. split; [|split].
    + intros r' Hr'. unfold relay_cleanup, relay_unbind. rewrite Hr'. simpl.
      apply dict_in_false in Hnot. by rewrite Hnot.
    + intros info' Hget'. assert (info' = info) as -> by congruence.
      simpl. split; [by apply dict_get_None|]. split; [|done].
      destruct Hok as (_ & _ & -> & _). rewrite elem_of_list_to_set.
      unfold slots, values. rewrite Hp, !fmap_app. simpl. set_solver.
    + intros Hnone. congruence.
Qed.

(** C7 on Python 3.11 and later with a client connected: the binding of
    COM3 is removed and number 1 is freed, but no [disconnected] envelope
    is sent: the first cleanup ends with [TypeError]. *)
Lemma cleanup_twice_witness :
  registry_ok two_players
  ∧ ∃ st1,
      after (relay_cleanup Python311 relay_COM3 two_players) = st1
      ∧ (∀ r', port_address r' = port_address relay_COM3 →
           relay_cleanup Python311 r' st1 = returned st1 [])
      ∧ (∀ info,
           dict_get (port_address relay_COM3) (players two_players) = Some info →
           dict_get (port_address relay_COM3) (players st1) = None
           ∧ player_num info ∈ assigned_player_nums two_players
           ∧ assigned_player_nums st1
             = assigned_player_nums two_players ∖ {[player_num info]}
           ∧ relay_cleanup Python311 relay_COM3 two_players
             = if delivers Python311 (connected_clients two_players)
               then returned st1
                      (to_every_client two_players
                         (status_envelope "disconnected"
                            (relay_player_num relay_COM3)
                            (port_address relay_COM3)))
               else raising st1 TypeError)
      ∧ (dict_get (port_address relay_COM3) (players two_players) = None →
           relay_cleanup Python311 relay_COM3 two_players
           = returned two_players []).
Proof.
  assert (Hok : registry_ok two_players)
    by (apply (bool_decide_unpack _); vm_compute; exact I).
  split; [exact Hok|].
  exact (cleanup_twice Python311 relay_COM3 two_players Hok).
Defined.

(** The same input, evaluated. *)
Example cleanup_on_python311 :
  ∃ st1,
    relay_cleanup Python311 relay_COM3 two_players = raising st1 TypeError
    ∧ players st1 = [(COM4, {| player_num := 2; serial_conn := 1 |})]
    ∧ sent (relay_cleanup Python311 relay_COM3 two_players) = []
    ∧ relay_cleanup Python310 relay_COM3 two_players
      = returned st1 [(7%nat, status_envelope "disconnected" 1 COM3)].
Proof. eexists. repeat split; vm_compute; reflexivity. Qed.

(** C8, as the spec words it, fails: the relay calls [strip()], which also
    removes whitespace at the front of the line. For the line
    [b"  HI\n"] of the device bound as player 1 the message handed to
    [broadcast] holds the data "HI", while trimming at the back only
    would give "  HI"; so on neither kind of interpreter does the turn
    send what the spec says. *)
Lemma relay_trailing_trim_counterexample :
  utf8_decode leading_space_line = Ok (str "  HI" ++ [10%N])
  ∧ relay_message relay_COM3 (Line leading_space_line)
    = Ok (Some (data_envelope 1 (str "HI")))
  ∧ spec_trailing_trim_sends relay_COM3 {[7%nat]} (str "  HI" ++ [10%N])
    = [(7%nat, data_envelope 1 (str "  HI"))]
  ∧ relay_iteration Python310 relay_COM3 {[7%nat]} (Line leading_space_line)
    ≠ (spec_trailing_trim_sends relay_COM3 {[7%nat]} (str "  HI" ++ [10%N]),
       Continue)
  ∧ relay_iteration Python311 relay_COM3 {[7%nat]} (Line leading_space_line)
    ≠ (spec_trailing_trim_sends relay_COM3 {[7%nat]} (str "  HI" ++ [10%N]),
       Continue).
Proof.
  split; [|split; [|split; [|split]]]; try (vm_compute; reflexivity);
    vm_compute; intros [=].
Qed.

(** C8, amended: a relay started on a bound port carries that binding's
    player number and serial object. For every line it reads while the
    serial object is open and whose bytes decode, it removes the
    whitespace at both ends of the text; exactly when something is left,
    it hands [broadcast] the envelope with that player number and the
    remaining text, and otherwise it hands it nothing and sends nothing.
    The turn then does what [broadcast] does: where that returns, its
    sends are those of the turn and the loop goes on; where [broadcast]
    gets through, these are one send of the envelope to every client. *)
Theorem relay_line_broadcast (py : python) (st0 st : bridge) (port : pystr)
    (info : player_info) (raw : bytes) (text : pystr) :
  dict_get port (players st0) = Some info →
  is_open (serial_conn info) st = true →
  utf8_decode raw = Ok text →
  ∃ r line pre post,
    relay_start port st0 = Some r
    ∧ relay_player_num r = player_num info
    ∧ ser r = serial_conn info
    ∧ text = pre ++ line ++ post
    ∧ Forall (λ c, py_isspace c = true) pre
    ∧ Forall (λ c, py_isspace c = true) post
    ∧ (∀ c, head line = Some c → py_isspace c = false)
    ∧ (∀ c, last line = Some c → py_isspace c = false)
    ∧ relay_message r (Line raw)
      = Ok (if bool_decide (line = []) then None
            else Some (data_envelope (player_num info) line))
    ∧ relay_body py r (connected_clients st) (Line raw)
      = (if bool_decide (line = []) then Ok []
         else broadcast py (connected_clients st)
                (data_envelope (player_num info) line))
    ∧ (∀ sends rest,
         relay_body py r (connected_clients st) (Line raw) = Ok sends →
         relay_loop py r ((st, Line raw) :: rest)
         = (sends ++ (relay_loop py r rest).1, (relay_loop py r rest).2))
    ∧ (delivers py (connected_clients st) = true →
         relay_iteration py r (connected_clients st) (Line raw)
         = (if bool_decide (line = []) then []
            else to_every_client st (data_envelope (player_num info) line),
            Continue)).
Proof.
  intros Hget Hopen Hdec.
  destruct (strip_spec text) as (pre & post & Heq & Hpre & Hpost & Hhead & Hlast).
  assert (Hmsg : ∀ r, relay_player_num r = player_num info →
    relay_message r (Line raw)
    = Ok (if bool_decide (strip text = []) then None
          else Some (data_envelope (player_num info) (strip text)))).
  { intros r Hr. unfold relay_message. rewrite Hdec. simpl.
    destruct (strip text) as [|c line] eqn:Hline; [done|].
    by rewrite Hr, bool_decide_eq_false_2. }
  unfold relay_start. rewrite Hget.
  set (r := {| port_address := port; relay_player_num := player_num info;
               ser := serial_conn info |}).
  assert (Hbody : relay_body py r (connected_clients st) (Line raw)
    = (if bool_decide (strip text = []) then Ok []
       else broadcast py (connected_clients st)
              (data_envelope (player_num info) (strip text)))).
  { unfold relay_body. rewrite (Hmsg r eq_refl). simpl. by case_bool_decide. }
  exists r, (strip text), pre, post.
  split; [reflexivity|]. split; [reflexivity|]. split; [reflexivity|].
  do 5 (split; [assumption|]).
  split; [exact (Hmsg r eq_refl)|]. split; [exact Hbody|].
  split.
  - intros sends rest Hsends. cbn [relay_loop].
    change (ser r) with (serial_conn info). rewrite Hopen.
    unfold relay_iteration. rewrite Hsends.
    by destruct (relay_loop py r rest).
  - intros Hdel. unfold relay_iteration. rewrite Hbody.
    repeat case_bool_decide; try done.
    rewrite broadcast_outcome, Hdel. reflexivity.
Qed.

Lemma relay_line_broadcast_witness :
  ∃ r line pre post,
    relay_start COM3 two_players = Some r
    ∧ relay_player_num r = 1
    ∧ ser r = 0%nat
    ∧ str "  HI" ++ [10%N] = pre ++ line ++ post
    ∧ Forall (λ c, py_isspace c = true) pre
    ∧ Forall (λ c, py_isspace c = true) post
    ∧ (∀ c, head line = Some c → py_isspace c = false)
    ∧ (∀ c, last line = Some c → py_isspace c = false)
    ∧ relay_message r (Line leading_space_line)
      = Ok (if bool_decide (line = []) then None
            else Some (data_envelope 1 line))
    ∧ relay_body Python310 r (connected_clients two_players)
        (Line leading_space_line)
      = (if bool_decide (line = []) then Ok []
         else broadcast Python310 (connected_clients two_players)
                (data_envelope 1 line))
    ∧ (∀ sends rest,
         relay_body Python310 r (connected_clients two_players)
           (Line leading_space_line) = Ok sends →
         relay_loop Python310 r ((two_players, Line leading_space_line) :: rest)
         = (sends ++ (relay_loop Python310 r rest).1,
            (relay_loop Python310 r rest).2))
    ∧ (delivers Python310 (connected_clients two_players) = true →
         relay_iteration Python310 r (connected_clients two_players)
           (Line leading_space_line)
         = (if bool_decide (line = []) then []
            else to_every_client two_players (data_envelope 1 line),
            Continue)).
Proof.
  apply (relay_line_broadcast Python310 two_players two_players COM3
           {| player_num := 1; serial_conn := 0 |} leading_space_line
           (str "  HI" ++ [10%N])); vm_compute; reflexivity.
Defined.

(** C9: with no client connected, [broadcast] sends nothing and raises
    nothing; and with any client set it never raises the [ValueError] that
    [asyncio.wait] has for an empty collection. Both hold on either kind
    of interpreter. *)
Theorem broadcast_without_clients (py : python) (message : wstext) :
  broadcast py ∅ message = Ok []
  ∧ ∀ cs, broadcast py cs message ≠ Raise ValueError.
Proof.
  split; [reflexivity|]. intros cs. rewrite broadcast_outcome.
  by destruct (delivers py cs).
Qed.

(** C10: a listed port whose description is [None] is filtered as if its
    description were the empty string: the filter raises nothing and
    answers no, building the set of qualifying ports succeeds, and the
    device is in that set only if another entry of the list, one with a
    description that contains "Serial", names it. *)
Theorem missing_description_does_not_qualify
    (available_ports : list ListPortInfo) (p : ListPortInfo) :
  p ∈ available_ports →
  description p = None →
  qualifies p = py_in_text (str "Serial") (Some (str ""))
  ∧ qualifies p = Ok false
  ∧ ∃ esp_ports,
      esp_ports_of available_ports = Ok esp_ports
      ∧ (device p ∈ esp_ports →
         ∃ p' desc, p' ∈ available_ports ∧ device p' = device p
                    ∧ description p' = Some desc
                    ∧ str_contains (str "Serial") desc = true).
Proof.
  intros Hin Hdesc. split; [|split].
  - unfold qualifies. by rewrite Hdesc.
  - by rewrite qualifies_total, Hdesc.
  - destruct (esp_ports_of_total available_ports) as (esp & Heq & Hesp).
    exists esp. split; [done|]. intros (p' & Hin' & Hdev & Hq)%Hesp.
    rewrite qualifies_total in Hq.
    destruct (description p') as [desc|] eqn:Hd'; [|done].
    exists p', desc. repeat split; [done..|]. by injection Hq.
Qed.

Lemma missing_description_does_not_qualify_witness :
  qualifies no_description = py_in_text (str "Serial") (Some (str ""))
  ∧ qualifies no_description = Ok false
  ∧ ∃ esp_ports,
      esp_ports_of [no_description] = Ok esp_ports
      ∧ (device no_description ∈ esp_ports →
         ∃ p' desc, p' ∈ [no_description] ∧ device p' = device no_description
                    ∧ description p' = Some desc
                    ∧ str_contains (str "Serial") desc = true).
Proof.
  apply (missing_description_does_not_qualify [no_description] no_description).
  - left.
  - reflexivity.
Defined.

(** ** Broadcast to the clients *)

(** X1: what [broadcast] does, by interpreter. It gets through exactly
    when [asyncio.wait] takes coroutines (Python 3.10 and earlier) or no
    client is connected; it then sends the message exactly once to every
    connected client and to nobody else. Otherwise, on Python 3.11 and
    later with a client connected, it raises [TypeError] and sends
    nothing. *)
Theorem broadcast_reaches_every_client (py : python) (cs : gset nat)
    (message : wstext) :
  (delivers py cs = true ↔ py = Python310 ∨ cs = ∅)
  ∧ (delivers py cs = true →
       ∃ sends,
         broadcast py cs message = Ok sends
         ∧ NoDup sends
         ∧ length sends = size cs
         ∧ ∀ client m, (client, m) ∈ sends ↔ client ∈ cs ∧ m = message)
  ∧ (delivers py cs = false → broadcast py cs message = Raise TypeError).
Proof.
  rewrite broadcast_outcome. split; [|split].
  - destruct py; simpl; [by split; [left|]|].
    rewrite bool_decide_eq_true. split; [by right | by intros [[=]|]].
  - intros ->. eexists. split; [done|]. split; [|split].
    + apply NoDup_fmap_2; [|apply NoDup_elements]. by intros c1 c2 [= ->].
    + by rewrite length_fmap.
    + intros client m. rewrite list_elem_of_fmap. split.
      * intros (c & [= -> ->] & Hc%elem_of_elements). done.
      * intros [Hc ->]. exists client. split; [done|]. by apply elem_of_elements.
  - by intros ->.
Qed.

(** * Further properties *)

(** ** The router on every input *)

Lemma forward_routed write_raises message st port info d :
  (port, info) ∈ d →
  Forall (routed_call write_raises message st d)
    (forward write_raises message st info).1
  ∧ (length (forward write_raises message st info).1 ≤ 1)%nat.
Proof.
  intros Hin. unfold forward, serial_write.
  destruct (is_open (serial_conn info) st) eqn:Hopen;
    [|simpl; split; [constructor | lia]].
  destruct (utf8_encode message) as [payload|] eqn:Henc; simpl;
    [|split; [constructor | lia]].
  split; [|lia]. constructor; [|constructor].
  split; [by exists port, info|]. split; [done|]. split; [|done].
  by exists payload.
Qed.

Lemma routed_call_weaken write_raises message st d d' call :
  d ⊆ d' → routed_call write_raises message st d call →
  routed_call write_raises message st d' call.
Proof.
  intros Hsub ((port & info & Hin & Hser) & ?). split; [|done].
  exists port, info. split; [by apply Hsub | done].
Qed.

Lemma send_to_player_routed write_raises target message st d :
  Forall (routed_call write_raises message st d)
    (send_to_player write_raises target message st d).1
  ∧ (length (send_to_player write_raises target message st d).1 ≤ length d)%nat.
Proof.
  induction d as [|[port info] d [IH IHlen]]; simpl; [split; [constructor | lia]|].
  assert (Hrest : Forall (routed_call write_raises message st ((port, info) :: d))
                    (send_to_player write_raises target message st d).1).
  { eapply Forall_impl; [exact IH|]. intros call.
    apply routed_call_weaken. set_solver. }
  destruct (py_int_eq (player_num info) target); [|split; [done | lia]].
  destruct (forward_routed write_raises message st port info ((port, info) :: d))
    as [Hfwd Hlen]; [left|].
  destruct (forward write_raises message st info) as [calls written]. simpl in *.
  destruct written; simpl; [split; [done | lia]|].
  destruct (send_to_player write_raises target message st d) as [calls' found].
  simpl in *. split; [by apply Forall_app | rewrite length_app; lia].
Qed.

Lemma send_to_all_routed write_raises message st d :
  Forall (routed_call write_raises message st d)
    (send_to_all write_raises message st d)
  ∧ (length (send_to_all write_raises message st d) ≤ length d)%nat.
Proof.
  induction d as [|[port info] d [IH IHlen]]; simpl; [split; [constructor | lia]|].
  destruct (forward_routed write_raises message st port info ((port, info) :: d))
    as [Hfwd Hlen]; [left|].
  split; [|rewrite length_app; lia].
  apply Forall_app. split; [done|].
  eapply Forall_impl; [exact IH|]. intros call.
  apply routed_call_weaken. set_solver.
Qed.


Lemma forward_serial write_raises message st info :
  sublist (w_ser <$> (forward write_raises message st info).1)
    [serial_conn info].
Proof.
  unfold forward, serial_write.
  destruct (is_open (serial_conn info) st); [|apply sublist_nil_l].
  destruct (utf8_encode message); simpl; [done | apply sublist_nil_l].
Qed.

Lemma send_to_player_serials write_raises target message st d :
  sublist (w_ser <$> (send_to_player write_raises target message st d).1)
    (serial_conn <$> values d).
Proof.
  induction d as [|[port info] d IH]; simpl; [done|].
  destruct (py_int_eq (player_num info) target); [|by apply sublist_cons].
  pose proof (forward_serial write_raises message st info) as Hfwd.
  destruct (forward write_raises message st info) as [calls written].
  simpl in Hfwd. destruct written; simpl.
  - exact (sublist_inserts_r (serial_conn <$> values d) _ _ Hfwd).
  - destruct (send_to_player write_raises target message st d)
      as [calls' found]. simpl in *. rewrite fmap_app.
    exact (sublist_app _ [serial_conn info] _ _ Hfwd IH).
Qed.

Lemma send_to_all_serials write_raises message st d :
  sublist (w_ser <$> send_to_all write_raises message st d)
    (serial_conn <$> values d).
Proof.
  induction d as [|[port info] d IH]; simpl; [done|].
  rewrite fmap_app.
  exact (sublist_app _ [serial_conn info] _ _
           (forward_serial write_raises message st info) IH).
Qed.

(** X2: whatever the message, whatever [json.loads] makes of it and
    whichever writes fail, the handler returns normally; every call of
    [write] it makes goes to the open serial object of a bound device and
    carries the UTF-8 bytes of the message followed by a newline; and it
    makes at most one call per binding: the serial objects written to,
    in the order of the calls, are a subsequence of the serial objects of
    the bindings in the order of the dict, so that, bindings having
    serial objects of their own, no serial object is written to twice. *)
Theorem router_writes_only_to_open_bound (json_loads : pystr → result json)
    (write_raises : nat → bool) (message : pystr) (st : bridge) :
  ∃ calls,
    handle_websocket_message json_loads write_raises message st = Ok calls
    ∧ sublist (w_ser <$> calls) (serials st)
    ∧ (length calls ≤ length (players st))%nat
    ∧ (NoDup (serials st) → NoDup (w_ser <$> calls))
    ∧ ∀ call, call ∈ calls →
        (∃ port info, (port, info) ∈ players st
                      ∧ serial_conn info = w_ser call)
        ∧ is_open (w_ser call) st = true
        ∧ (∃ payload, utf8_encode message = Ok payload
                      ∧ w_data call = payload ++ [x0a])
        ∧ w_raised call = write_raises (w_ser call).
Proof.
  assert (Hgoal : ∀ calls : list write_call,
    sublist (w_ser <$> calls) (serials st) →
    Forall (routed_call write_raises message st (players st)) calls →
    ∃ calls', Ok calls = Ok calls'
      ∧ sublist (w_ser <$> calls') (serials st)
      ∧ (length calls' ≤ length (players st))%nat
      ∧ (NoDup (serials st) → NoDup (w_ser <$> calls'))
      ∧ ∀ call, call ∈ calls' →
          routed_call write_raises message st (players st) call).
  { intros calls Hsub Hall. exists calls. split; [done|]. split; [done|].
    split; [|split].
    - apply sublist_length in Hsub. unfold serials, values in Hsub.
      by rewrite !length_fmap in Hsub.
    - intros Hnd. by eapply sublist_NoDup.
    - by apply Forall_forall. }
  assert (Hnone : ∃ calls' : list write_call, Ok [] = Ok calls'
      ∧ sublist (w_ser <$> calls') (serials st)
      ∧ (length calls' ≤ length (players st))%nat
      ∧ (NoDup (serials st) → NoDup (w_ser <$> calls'))
      ∧ ∀ call, call ∈ calls' →
          routed_call write_raises message st (players st) call).
  { apply Hgoal; [apply sublist_nil_l | constructor]. }
  unfold handle_websocket_message, route.
  destruct (json_loads message) as [data|[]]; simpl; try exact Hnone.
  destruct (py_in (str "player_id") data) as [[]|[]]; simpl; try exact Hnone.
  - destruct (py_get (str "player_id") data) as [target|[]]; simpl;
      try exact Hnone.
    apply Hgoal; [apply send_to_player_serials|].
    apply send_to_player_routed.
  - apply Hgoal; [apply send_to_all_serials|]. apply send_to_all_routed.
Qed.

Lemma existsb_player_id (xs : list json) :
  existsb (λ x, match x with
                | JStr s => bool_decide (s = str "player_id")
                | _ => false
                end) xs = true
  ↔ JStr (str "player_id") ∈ xs.
Proof.
  rewrite existsb_exists. split.
  - intros (x & Hin%list_elem_of_In & Hx).
    destruct x; try done. apply bool_decide_eq_true in Hx. by subst.
  - intros Hin. exists (JStr (str "player_id")).
    split; [by apply list_elem_of_In | by apply bool_decide_eq_true].
Qed.

(** X3: a message that parses to a number, a boolean or null, to a string
    that contains the text player_id, or to an array that has the string
    "player_id" among its elements, is dropped: the membership test or the
    call of [get] raises, the outer [except] takes it, and nothing is
    written. *)
Theorem non_object_with_player_id_dropped (json_loads : pystr → result json)
    (write_raises : nat → bool) (message : pystr) (data : json) (st : bridge) :
  json_loads message = Ok data →
  match data with
  | JNull | JBool _ | JInt _ | JFloat _ => True
  | JStr s => ∃ pre post, s = pre ++ str "player_id" ++ post
  | JArr xs => JStr (str "player_id") ∈ xs
  | JObj _ => False
  end →
  handle_websocket_message json_loads write_raises message st = Ok [].
Proof.
  intros Hloads Hdata. unfold handle_websocket_message, route.
  rewrite Hloads. simpl. destruct data as [| | | | s | xs |]; simpl; try done.
  - apply str_contains_spec in Hdata. by rewrite Hdata.
  - apply existsb_player_id in Hdata. by rewrite Hdata.
Qed.

Lemma non_object_with_player_id_dropped_witness :
  handle_websocket_message
    (loads_constant (JArr [JInt 1; JStr (str "player_id")])) (λ _, false)
    (str "[1, ...]") two_players = Ok [].
Proof.
  apply (non_object_with_player_id_dropped
           (loads_constant (JArr [JInt 1; JStr (str "player_id")])) (λ _, false)
           (str "[1, ...]") (JArr [JInt 1; JStr (str "player_id")]) two_players).
  - reflexivity.
  - right. left.
Defined.

(** X4: a message that parses to an array without the element
    "player_id", or to a string that does not contain the text player_id,
    is not dropped: it takes the broadcast branch and is written to every
    open bound serial object. *)
Theorem array_or_string_is_broadcast (json_loads : pystr → result json)
    (write_raises : nat → bool) (message : pystr) (data : json) (st : bridge) :
  Forall unicode_scalar message →
  json_loads message = Ok data →
  match data with
  | JStr s => ¬ ∃ pre post, s = pre ++ str "player_id" ++ post
  | JArr xs => JStr (str "player_id") ∉ xs
  | _ => False
  end →
  ∃ payload,
    utf8_encode message = Ok payload
    ∧ handle_websocket_message json_loads write_raises message st
      = Ok ((λ ser, {| w_ser := ser; w_data := payload ++ [x0a];
                       w_raised := write_raises ser |})
              <$> filter (λ ser, is_open ser st = true) (serials st)).
Proof.
  intros Htext Hloads Hdata.
  destruct (utf8_encode_scalars message Htext) as [payload Henc].
  exists payload. split; [done|].
  unfold handle_websocket_message, route. rewrite Hloads. simpl.
  destruct data as [| | | | s | xs |]; simpl; try done.
  - rewrite <- str_contains_spec in Hdata.
    destruct (str_contains (str "player_id") s); [done|]. simpl.
    by rewrite (send_to_all_calls _ _ payload).
  - rewrite <- existsb_player_id in Hdata.
    destruct (existsb _ xs); [done|]. simpl.
    by rewrite (send_to_all_calls _ _ payload).
Qed.

Lemma array_or_string_is_broadcast_witness :
  ∃ payload,
    utf8_encode (str "[1, 2]") = Ok payload
    ∧ handle_websocket_message (loads_constant (JArr [JInt 1; JInt 2]))
        (λ _, false) (str "[1, 2]") two_players
      = Ok ((λ ser, {| w_ser := ser; w_data := payload ++ [x0a];
                       w_raised := false |})
              <$> filter (λ ser, is_open ser two_players = true)
                    (serials two_players)).
Proof.
  apply (array_or_string_is_broadcast (loads_constant (JArr [JInt 1; JInt 2]))
           (λ _, false) (str "[1, 2]") (JArr [JInt 1; JInt 2]) two_players).
  - apply (bool_decide_unpack _). vm_compute. exact I.
  - reflexivity.
  - intros Hin. apply elem_of_cons in Hin as [[=] | Hin].
    apply elem_of_cons in Hin as [[=] | Hin]. by apply elem_of_nil in Hin.
Defined.

Lemma send_to_player_closed write_raises target message st d :
  (∀ port info, (port, info) ∈ d →
     py_int_eq (player_num info) target = true →
     is_open (serial_conn info) st = false) →
  send_to_player write_raises target message st d = ([], false).
Proof.
  induction d as [|[port info] d IH]; intros Hd; simpl; [done|].
  rewrite IH by (intros p i Hin Heq; apply (Hd p i); [by right | done]).
  destruct (py_int_eq (player_num info) target) eqn:Heq; [|done].
  rewrite forward_closed; [done|]. apply (Hd port info); [left | done].
Qed.

(** X5: a message whose [player_id] names no player with an open serial
    object (no binding has that number, or the one that has it is closed)
    is dropped: nothing is written, to nobody. *)
Theorem unknown_target_dropped (json_loads : pystr → result json)
    (write_raises : nat → bool) (message : pystr)
    (items : list (pystr * json)) (target : json) (st : bridge) :
  json_loads message = Ok (JObj items) →
  dict_get (str "player_id") items = Some target →
  (∀ port info, (port, info) ∈ players st →
     py_int_eq (player_num info) target = true →
     is_open (serial_conn info) st = false) →
  handle_websocket_message json_loads write_raises message st = Ok [].
Proof.
  intros Hloads Htarget Hclosed. unfold handle_websocket_message, route.
  rewrite Hloads. simpl. unfold dict_in. rewrite Htarget. simpl.
  by rewrite send_to_player_closed.
Qed.

Lemma unknown_target_dropped_witness :
  handle_websocket_message
    (loads_constant (JObj [(str "player_id", JInt 3)])) (λ _, false)
    (str "{...}") two_players = Ok [].
Proof.
  apply (unknown_target_dropped
           (loads_constant (JObj [(str "player_id", JInt 3)])) (λ _, false)
           (str "{...}") [(str "player_id", JInt 3)] (JInt 3) two_players);
    try reflexivity.
  intros port info Hin Heq.
  apply elem_of_cons in Hin as [[= -> ->] | Hin]; [done|].
  apply elem_of_cons in Hin as [[= -> ->] | Hin]; [done|].
  by apply elem_of_nil in Hin.
Defined.

(** X6: a [player_id] that is not a number or a boolean (a string such
    as "2", null, an array, an object, or a float that is not finite)
    equals no player number, so the message is dropped in every state. *)
Theorem non_numeric_target_dropped (json_loads : pystr → result json)
    (write_raises : nat → bool) (message : pystr)
    (items : list (pystr * json)) (target : json) (st : bridge) :
  json_loads message = Ok (JObj items) →
  dict_get (str "player_id") items = Some target →
  match target with
  | JInt _ | JBool _ | JFloat (FNum _) => False
  | _ => True
  end →
  handle_websocket_message json_loads write_raises message st = Ok [].
Proof.
  intros Hloads Htarget Hshape. unfold handle_websocket_message, route.
  rewrite Hloads. simpl. unfold dict_in. rewrite Htarget. simpl.
  rewrite send_to_player_closed; [done|].
  intros port info _ Heq. by destruct target as [| | | [] | | |].
Qed.

Lemma non_numeric_target_dropped_witness :
  handle_websocket_message
    (loads_constant (JObj [(str "player_id", JStr (str "2"))])) (λ _, false)
    (str "{...}") two_players = Ok [].
Proof.
  apply (non_numeric_target_dropped
           (loads_constant (JObj [(str "player_id", JStr (str "2"))]))
           (λ _, false) (str "{...}") [(str "player_id", JStr (str "2"))]
           (JStr (str "2")) two_players); first [reflexivity | exact I].
Defined.

(** ** Client connections *)

Lemma handle_websocket_message_returns json_loads write_raises message st :
  ∃ calls,
    handle_websocket_message json_loads write_raises message st = Ok calls.
Proof.
  unfold handle_websocket_message.
  destruct (route json_loads write_raises message st) as [calls|[]];
    by eexists.
Qed.

Lemma serve_chunks json_loads write_raises script :
  ∃ chunks,
    serve json_loads write_raises script = (concat chunks, None)
    ∧ Forall2 (λ turn calls,
         handle_websocket_message json_loads write_raises turn.2 turn.1
         = Ok calls)
        script chunks.
Proof.
  induction script as [|[st message] rest (chunks & Heq & Hall)]; simpl.
  - exists []. by split; [|constructor].
  - destruct (handle_websocket_message_returns json_loads write_raises message st)
      as [calls Hcalls].
    rewrite Hcalls, Heq. exists (calls :: chunks). by split; [|constructor].
Qed.

(** X7: a client connection, from its first line to its [finally]
    block, with other tasks running between its messages. The first line
    puts the websocket into the client set. The handler is run on every
    incoming message, in order, in the state of that time, and never
    raises; the calls of [write] are those of the messages, one after the
    other. The [finally] block runs however the stream ended. If the
    websocket is then still in the client set, it is removed from it, the
    rest of the state is left as it is, and an exception leaves the
    coroutine only if the stream raised one other than
    [ConnectionClosedError]; if it is not, [remove] raises [KeyError] and
    the state is left as it is. *)
Theorem register_client_round_trip (json_loads : pystr → result json)
    (write_raises : nat → bool) (websocket : nat)
    (script : list (bridge * pystr)) (fin : stream_end) (st0 st_end : bridge) :
  websocket ∈ connected_clients (register_client_enter websocket st0)
  ∧ ∃ chunks,
      Forall2 (λ turn calls,
         handle_websocket_message json_loads write_raises turn.2 turn.1
         = Ok calls)
        script chunks
      ∧ register_client json_loads write_raises websocket script fin st_end
        = if bool_decide (websocket ∈ connected_clients st_end) then
            (set_clients (connected_clients st_end ∖ {[websocket]}) st_end,
             concat chunks,
             match fin with StreamRaises e => Some e | _ => None end)
          else (st_end, concat chunks, Some KeyError).
Proof.
  split; [simpl; set_solver|].
  destruct (serve_chunks json_loads write_raises script)
    as (chunks & Hserve & Hall).
  exists chunks. split; [done|].
  unfold register_client. rewrite Hserve.
  unfold register_client_finally, set_remove.
  case_bool_decide; simpl; [|done]. by destruct fin.
Qed.

(** A connection of client 9 next to client 7: two messages, the second
    handled after a relay has unbound COM3; the stream ends with
    [ConnectionClosedError]. *)
Example register_client_between_tasks :
  ∃ st1 payload1 payload2,
    after (relay_cleanup Python310 relay_COM3
             (register_client_enter 9 two_players)) = st1
    ∧ utf8_encode untargeted_message = Ok payload1
    ∧ utf8_encode targeted_message = Ok payload2
    ∧ register_client loads_two_messages (λ _, false) 9
        [(register_client_enter 9 two_players, untargeted_message);
         (st1, untargeted_message); (st1, targeted_message)]
        ConnectionClosedError st1
      = (set_clients {[7%nat]} st1,
         [call_on (λ _, false) payload1 0%nat;
          call_on (λ _, false) payload1 1%nat;
          call_on (λ _, false) payload1 1%nat;
          call_on (λ _, false) payload2 1%nat],
         None).
Proof.
  eexists _, _, _. split; [reflexivity|].
  split; [vm_compute; reflexivity|]. split; [vm_compute; reflexivity|].
  vm_compute. reflexivity.
Qed.

(** ** The relay *)

Lemma relay_message_line r raw text :
  utf8_decode raw = Ok text →
  relay_message r (Line raw)
  = Ok (if bool_decide (strip text = []) then None
        else Some (data_envelope (relay_player_num r) (strip text))).
Proof.
  intros Hdec. unfold relay_message. rewrite Hdec. simpl.
  destruct (strip text) as [|c line]; [done|].
  by rewrite bool_decide_eq_false_2.
Qed.

Lemma relay_body_line py r cs raw text :
  utf8_decode raw = Ok text →
  relay_body py r cs (Line raw)
  = if bool_decide (strip text = []) then Ok []
    else broadcast py cs (data_envelope (relay_player_num r) (strip text)).
Proof.
  intros Hdec. unfold relay_body. rewrite (relay_message_line r raw text Hdec).
  simpl. by destruct (bool_decide (strip text = [])).
Qed.

(** A turn that reads a line: a blank line sends nothing and the loop
    goes on; another line is sent to every client where [broadcast] gets
    through, and ends the loop without a send where it does not. *)
Lemma relay_iteration_line py r cs raw text :
  utf8_decode raw = Ok text →
  relay_iteration py r cs (Line raw)
  = if bool_decide (strip text = []) then ([], Continue)
    else if delivers py cs
    then ((λ client, (client, data_envelope (relay_player_num r) (strip text)))
            <$> elements cs, Continue)
    else ([], Break).
Proof.
  intros Hdec. unfold relay_iteration.
  rewrite (relay_body_line py r cs raw text Hdec).
  destruct (bool_decide (strip text = [])); [done|].
  rewrite broadcast_outcome. by destruct (delivers py cs).
Qed.




(** The same three lines on both kinds of interpreter. *)
Example relay_three_lines :
  relay_loop Python310 relay_COM3
    ((λ raw, (two_players, Line raw)) <$> [hello_line; [x0a]; leading_space_line])
  = ([(7%nat, data_envelope 1 (str "HELLO"));
      (7%nat, data_envelope 1 (str "HI"))], false)
  ∧ relay_loop Python311 relay_COM3
      ((λ raw, (two_players, Line raw)) <$> [[x0a]; hello_line; leading_space_line])
    = ([], true).
Proof. split; vm_compute; reflexivity. Qed.



Lemma utf8_encode_app s t a b :
  utf8_encode s = Ok a → utf8_encode t = Ok b →
  utf8_encode (s ++ t) = Ok (a ++ b).
Proof.
  revert a. induction s as [|c s IH]; intros a; simpl.
  - by intros [= <-].
  - destruct (utf8_encode_char c) as [bc|]; [|done].
    destruct (utf8_encode s) as [a'|]; [|done]. simpl.
    intros [= <-] Ht. rewrite (IH a') by done. simpl. by rewrite (assoc_L (++)).
Qed.

Lemma lstrip_app s t :
  lstrip s ≠ [] → lstrip (s ++ t) = lstrip s ++ t.
Proof.
  induction s as [|c s IH]; simpl; [done|].
  destruct (py_isspace c); [exact IH | done].
Qed.

Lemma lstrip_blank_app s t : lstrip s = [] → lstrip (s ++ t) = lstrip t.
Proof.
  induction s as [|c s IH]; simpl; [done|].
  destruct (py_isspace c); [exact IH | done].
Qed.

Lemma rstrip_snoc_space s c : py_isspace c = true → rstrip (s ++ [c]) = rstrip s.
Proof.
  intros Hc. unfold rstrip. rewrite reverse_app, reverse_singleton. simpl.
  by rewrite Hc.
Qed.

(** A whitespace character at the end of a text does not show after
    [strip]. *)
Lemma strip_snoc_space s c : py_isspace c = true → strip (s ++ [c]) = strip s.
Proof.
  intros Hc. unfold strip. destruct (lstrip s) as [|d s'] eqn:Hs.
  - rewrite lstrip_blank_app by done. simpl. by rewrite Hc.
  - rewrite lstrip_app by (by rewrite Hs). rewrite Hs.
    by apply rstrip_snoc_space.
Qed.

(** X10: what the router writes to a device comes back unchanged when the
    device echoes it. If the relay reads, as one line, exactly the bytes
    of a [write] the router made for a message, then the relay hands
    [broadcast] the data envelope with the text of that message, trimmed
    at both ends, and nothing when the message is blank; where
    [broadcast] gets through, every connected client is sent that
    envelope and the loop goes on. *)
Theorem echo_round_trip (py : python) (write_raises : nat → bool)
    (target : nat) (message : pystr) (call : write_call) (r : relay)
    (cs : gset nat) :
  serial_write write_raises target message = Ok call →
  relay_message r (Line (w_data call))
  = Ok (if bool_decide (strip message = []) then None
        else Some (data_envelope (relay_player_num r) (strip message)))
  ∧ relay_body py r cs (Line (w_data call))
    = (if bool_decide (strip message = []) then Ok []
       else broadcast py cs (data_envelope (relay_player_num r) (strip message)))
  ∧ (delivers py cs = true →
       relay_iteration py r cs (Line (w_data call))
       = (if bool_decide (strip message = []) then []
          else (λ client,
                  (client, data_envelope (relay_player_num r) (strip message)))
                 <$> elements cs,
          Continue)).
Proof.
  intros Hcall. unfold serial_write in Hcall.
  destruct (utf8_encode message) as [payload|] eqn:Henc; [|done].
  simpl in Hcall. injection Hcall as <-. cbn [w_data].
  assert (Hdec : utf8_decode (payload ++ [x0a]) = Ok (message ++ [10%N])).
  { apply utf8_decode_encode. by apply utf8_encode_app. }
  rewrite (relay_message_line _ _ _ Hdec), (relay_body_line _ _ _ _ _ Hdec),
    (relay_iteration_line _ _ _ _ _ Hdec).
  rewrite strip_snoc_space by done. split; [done|]. split; [done|].
  intros ->. by destruct (bool_decide (strip message = [])).
Qed.

Lemma echo_round_trip_witness :
  ∃ call,
    serial_write (λ _, false) 1%nat targeted_message = Ok call
    ∧ relay_message relay_COM3 (Line (w_data call))
      = Ok (if bool_decide (strip targeted_message = []) then None
            else Some (data_envelope (relay_player_num relay_COM3)
                         (strip targeted_message)))
    ∧ relay_body Python310 relay_COM3 {[7%nat]} (Line (w_data call))
      = (if bool_decide (strip targeted_message = []) then Ok []
         else broadcast Python310 {[7%nat]}
                (data_envelope (relay_player_num relay_COM3)
                   (strip targeted_message)))
    ∧ (delivers Python310 {[7%nat]} = true →
         relay_iteration Python310 relay_COM3 {[7%nat]} (Line (w_data call))
         = (if bool_decide (strip targeted_message = []) then []
            else (λ client,
                    (client, data_envelope (relay_player_num relay_COM3)
                               (strip targeted_message)))
                   <$> elements ({[7%nat]} : gset nat),
            Continue)).
Proof.
  eexists. split; [vm_compute; reflexivity|].
  apply (echo_round_trip Python310 (λ _, false) 1%nat targeted_message).
  vm_compute. reflexivity.
Defined.

(** ** The scanner's filter *)

(** X11: the filter of the scanner never raises, and a device is among the
    qualifying ports exactly when some listed entry names it and has a
    description that contains the text Serial, in this case and in one
    piece; entries without a description or with an empty one never
    count, and a device listed twice is one port. *)
Theorem esp_ports_are_the_Serial_devices (available_ports : list ListPortInfo) :
  ∃ esp_ports,
    esp_ports_of available_ports = Ok esp_ports
    ∧ ∀ port, port ∈ esp_ports ↔
        ∃ p desc pre post,
          p ∈ available_ports ∧ device p = port
          ∧ description p = Some desc ∧ desc = pre ++ str "Serial" ++ post.
Proof.
  destruct (esp_ports_of_total available_ports) as (esp & Heq & Hesp).
  exists esp. split; [done|]. intros port. rewrite Hesp. split.
  - intros (p & Hin & Hdev & Hq). rewrite qualifies_total in Hq.
    destruct (description p) as [desc|] eqn:Hd; [|done].
    injection Hq as Hq. apply str_contains_spec in Hq as (pre & post & ->).
    by exists p, (pre ++ str "Serial" ++ post), pre, post.
  - intros (p & desc & pre & post & Hin & Hdev & Hd & ->).
    exists p. split; [done|]. split; [done|].
    rewrite qualifies_total, Hd. f_equal. apply str_contains_spec. eauto.
Qed.


(** ** The registry *)

Lemma elem_of_slots st n :
  n ∈ slots st ↔ ∃ port info, (port, info) ∈ players st ∧ player_num info = n.
Proof.
  unfold slots, values. rewrite list_elem_of_fmap. split.
  - intros (info & -> & ([port info'] & -> & Hin)%list_elem_of_fmap).
    by exists port, info'.
  - intros (port & info & Hin & <-). exists info. split; [done|].
    apply list_elem_of_fmap. by exists (port, info).
Qed.

(** A full registry has no number left. *)
Lemma full_registry_no_slot st :
  registry_ok st → Z.of_nat (length (players st)) = MAX_PLAYERS →
  get_available_player_num (assigned_player_nums st) = None.
Proof.
  intros (_ & Hslots & Hassigned & Hrange & _) Hfull.
  apply get_available_None. intros i Hi. rewrite Hassigned, elem_of_list_to_set.
  assert (Hsub : slots st ⊆+ range 1 (MAX_PLAYERS + 1)).
  { apply NoDup_submseteq; [done|]. intros n Hn.
    rewrite Forall_forall in Hrange. apply elem_of_range_players. auto. }
  apply submseteq_length_Permutation in Hsub.
  - rewrite Hsub. by apply elem_of_range_players.
  - unfold slots, values, range. rewrite !length_fmap, length_seqZ.
    unfold MAX_PLAYERS in *. lia.
Qed.

(** Without a number left, the registry is full. *)
Lemma no_slot_full_registry st :
  registry_ok st →
  get_available_player_num (assigned_player_nums st) = None →
  Z.of_nat (length (players st)) = MAX_PLAYERS.
Proof.
  intros Hok Hnone. pose proof (registry_ok_length st Hok) as Hle.
  destruct Hok as (_ & Hslots & Hassigned & _).
  assert (Hsub : range 1 (MAX_PLAYERS + 1) ⊆+ slots st).
  { apply NoDup_submseteq; [apply NoDup_seqZ|]. intros n Hn.
    apply elem_of_range_players in Hn.
    rewrite get_available_None in Hnone. apply Hnone in Hn.
    by rewrite Hassigned, elem_of_list_to_set in Hn. }
  apply submseteq_length in Hsub.
  unfold slots, values, range in Hsub.
  rewrite !length_fmap, length_seqZ in Hsub. unfold MAX_PLAYERS in *. lia.
Qed.

(** X12: with MAX_PLAYERS devices bound the scanner binds no further
    device: whatever the port and whether or not it could be opened, the
    turn returns with the state as it is and nothing sent. With fewer
    devices bound, a port that is not bound and can be opened is bound,
    to the lowest free number and a new serial object, and the
    [connected] envelope is handed to [broadcast]: where that gets
    through every client is sent it, and where it does not the turn ends
    with [TypeError], the device bound all the same. *)
Theorem full_registry_binds_nothing (py : python) (port : pystr)
    (st : bridge) :
  registry_ok st →
  (Z.of_nat (length (players st)) = MAX_PLAYERS →
   ∀ open_ok, scan_connect py open_ok port st = returned st [])
  ∧ (Z.of_nat (length (players st)) < MAX_PLAYERS →
     dict_in port (players st) = false →
     ∃ n,
       get_available_player_num (assigned_player_nums st) = Some n
       ∧ scan_connect py true port st
         = (if delivers py (connected_clients st)
            then returned (bound port n st)
                   (to_every_client st (status_envelope "connected" n port))
            else raising (bound port n st) TypeError)
       ∧ dict_get port (players (bound port n st))
         = Some {| player_num := n; serial_conn := next_serial st |}).
Proof.
  intros Hok. split.
  - intros Hfull open_ok. apply scan_connect_nothing. unfold scan_bind.
    destruct (dict_in port (players st)); [done|].
    by rewrite (full_registry_no_slot st Hok Hfull).
  - intros Hless Hport. apply dict_in_false in Hport.
    destruct (get_available_player_num (assigned_player_nums st)) as [n|] eqn:Hn.
    + exists n. split; [done|]. split.
      * rewrite (scan_connect_binds py port n st Hport Hn).
        by rewrite await_broadcast_outcome.
      * by apply dict_get_app_new.
    + apply (no_slot_full_registry st Hok) in Hn. lia.
Qed.

Lemma full_registry_binds_nothing_witness :
  registry_ok four_players
  ∧ (Z.of_nat (length (players four_players)) = MAX_PLAYERS →
     ∀ open_ok,
       scan_connect Python311 open_ok COM7 four_players
       = returned four_players [])
  ∧ (Z.of_nat (length (players four_players)) < MAX_PLAYERS →
     dict_in COM7 (players four_players) = false →
     ∃ n,
       get_available_player_num (assigned_player_nums four_players) = Some n
       ∧ scan_connect Python311 true COM7 four_players
         = (if delivers Python311 (connected_clients four_players)
            then returned (bound COM7 n four_players)
                   (to_every_client four_players
                      (status_envelope "connected" n COM7))
            else raising (bound COM7 n four_players) TypeError)
       ∧ dict_get COM7 (players (bound COM7 n four_players))
         = Some {| player_num := n; serial_conn := next_serial four_players |}).
Proof.
  assert (Hok : registry_ok four_players)
    by (apply (bool_decide_unpack _); vm_compute; exact I).
  split; [exact Hok|].
  exact (full_registry_binds_nothing Python311 COM7 four_players Hok).
Defined.

(** With two devices bound, COM7 is bound as player 3 on either kind of
    interpreter; client 7 is told on the one, and the turn ends with
    [TypeError] on the other. *)
Example third_player_bound :
  scan_connect Python310 true COM7 two_players
  = returned (bound COM7 3 two_players)
      [(7%nat, status_envelope "connected" 3 COM7)]
  ∧ scan_connect Python311 true COM7 two_players
    = raising (bound COM7 3 two_players) TypeError
  ∧ players (bound COM7 3 two_players)
    = [(COM3, {| player_num := 1; serial_conn := 0 |});
       (COM4, {| player_num := 2; serial_conn := 1 |});
       (COM7, {| player_num := 3; serial_conn := 2 |})].
Proof. repeat split; vm_compute; reflexivity. Qed.

(** X13: in every state that the scanner and the relays can reach, on
    either kind of interpreter, a player number is marked as assigned
    exactly when some binding holds it; every binding has a number in
    1..MAX_PLAYERS; no port is bound twice; and no two bindings share a
    serial object. No step raises, except with the [TypeError] of
    [asyncio.wait] on Python 3.11 and later. *)
Theorem registry_coherent (py : python) (evs : list event) :
  ∃ st,
    final (run py evs initial) = st
    ∧ Forall (wait_error_only py) (crashes (run py evs initial))
    ∧ (∀ n, n ∈ assigned_player_nums st ↔
            ∃ port info, (port, info) ∈ players st ∧ player_num info = n)
    ∧ (∀ port info, (port, info) ∈ players st →
         1 ≤ player_num info ≤ MAX_PLAYERS
         ∧ dict_get port (players st) = Some info)
    ∧ (∀ port1 info1 port2 info2,
         (port1, info1) ∈ players st → (port2, info2) ∈ players st →
         serial_conn info1 = serial_conn info2 → port1 = port2).
Proof.
  destruct (run_sound py evs initial registry_ok_initial) as [Hok Hcrashes].
  eexists. split; [done|]. split; [done|].
  destruct Hok as (Hkeys & Hslots & Hassigned & Hrange & Hsers & _).
  split; [|split].
  - intros n. by rewrite Hassigned, elem_of_list_to_set, elem_of_slots.
  - intros port info Hin. split; [|by apply dict_elem_get].
    rewrite Forall_forall in Hrange. apply Hrange, elem_of_slots. eauto.
  - intros port1 info1 port2 info2 H1 H2 Heq.
    apply list_elem_of_lookup in H1 as [i Hi], H2 as [j Hj].
    assert (i = j) as ->.
    { eapply NoDup_lookup; [exact Hsers | |];
        unfold serials, values; rewrite !list_lookup_fmap.
      - by rewrite Hi.
      - rewrite Hj. simpl. by rewrite Heq. }
    rewrite Hi in Hj. by injection Hj.
Qed.

(** ** Numbering *)


Lemma and_then_raising st e k : and_then (raising st e) k = raising st e.
Proof. done. Qed.






(** ** Stability of a binding *)

Lemma dict_get_app {V} (k : pystr) (d1 d2 : list (pystr * V)) :
  dict_get k (d1 ++ d2)
  = match dict_get k d1 with
    | Some v => Some v
    | None => dict_get k d2
    end.
Proof.
  induction d1 as [|[k' v'] d1 IH]; simpl; [done|].
  by destruct (bool_decide (k' = k)).
Qed.


Lemma grows_refl st : grows st st.
Proof. unfold grows. repeat split; auto. Qed.

Lemma grows_trans a b c : grows a b → grows b c → grows a c.
Proof.
  intros (Hk1 & Hn1 & Hs1 & Ho1 & Hl1 & Hc1) (Hk2 & Hn2 & Hs2 & Ho2 & Hl2 & Hc2).
  split; [auto|]. split; [lia|]. split; [|split; [set_solver|split; [lia|]]].
  - intros s [Hs | Hs]%Hs2; [|right; lia].
    apply Hs1 in Hs as [Hs | Hs]; [by left | by right].
  - congruence.
Qed.

Lemma scan_bind_grows open_ok port st : grows st (scan_bind open_ok port st).1.
Proof.
  destruct (scan_bind_cases open_ok port st) as [-> | (n & _ & _ & _ & ->)];
    [apply grows_refl|].
  unfold grows, bound. simpl. split; [|split; [|split; [|split; [|split]]]].
  - intros p info Hget. by rewrite dict_get_app, Hget.
  - lia.
  - intros s [->%elem_of_singleton | Hs]%elem_of_union; [right; lia | by left].
  - set_solver.
  - rewrite length_app. simpl. lia.
  - done.
Qed.

Lemma connect_all_grows py open_ok ports st :
  grows st (after (connect_all py open_ok ports st)).
Proof.
  revert st. induction ports as [|port rest IH]; intros st;
    [apply grows_refl|].
  cbn [connect_all]. unfold and_then.
  pose proof (scan_bind_grows (open_ok port) port st) as Hstep.
  rewrite <- (scan_connect_after py) in Hstep.
  destruct (raised (scan_connect py (open_ok port) port st)); [done|].
  simpl. eapply grows_trans; [exact Hstep | apply IH].
Qed.

Lemma scan_connect_returns py open_ok port st :
  delivers py (connected_clients st) = true →
  raised (scan_connect py open_ok port st) = None.
Proof.
  intros Hd. unfold scan_connect.
  destruct (scan_bind_cases open_ok port st) as [-> | (n & _ & _ & _ & ->)];
    [done|].
  rewrite await_broadcast_outcome.
  change (connected_clients (bound port n st)) with (connected_clients st).
  by rewrite Hd.
Qed.

Lemma connect_all_returns py open_ok ports st :
  delivers py (connected_clients st) = true →
  raised (connect_all py open_ok ports st) = None.
Proof.
  revert st. induction ports as [|port rest IH]; intros st Hd; [done|].
  cbn [connect_all]. unfold and_then.
  rewrite (scan_connect_returns py _ _ _ Hd). simpl. apply IH.
  rewrite scan_connect_after.
  destruct (scan_bind_grows (open_ok port) port st) as (_ & _ & _ & _ & _ & ->).
  done.
Qed.

Lemma disconnect_all_registry ports st :
  players (disconnect_all ports st) = players st
  ∧ assigned_player_nums (disconnect_all ports st) = assigned_player_nums st
  ∧ next_serial (disconnect_all ports st) = next_serial st
  ∧ connected_clients (disconnect_all ports st) = connected_clients st.
Proof.
  unfold disconnect_all. revert st.
  induction ports as [|port rest IH]; intros st; simpl; [done|].
  destruct (IH (scan_disconnect port st)) as (-> & -> & -> & ->).
  unfold scan_disconnect. by destruct (dict_get port (players st)).
Qed.

(** A cycle of the scanner is its first loop, and then, unless that
    raised, its second loop. *)
Lemma com_port_scanner_cycle_unfold py set_iter open_ok available st :
  ∃ esp,
    esp_ports_of available = Ok esp
    ∧ (∀ port, port ∈ esp ↔
         ∃ p, p ∈ available ∧ device p = port ∧ qualifies p = Ok true)
    ∧ (raised (connect_all py open_ok (set_iter esp) st) = None →
         com_port_scanner_cycle py set_iter open_ok available st
         = returned
             (disconnect_all
                (set_iter
                   (list_to_set
                      (keys (players
                               (after (connect_all py open_ok (set_iter esp) st))))
                    ∖ esp))
                (after (connect_all py open_ok (set_iter esp) st)))
             (sent (connect_all py open_ok (set_iter esp) st)))
    ∧ (raised (connect_all py open_ok (set_iter esp) st) ≠ None →
         com_port_scanner_cycle py set_iter open_ok available st
         = connect_all py open_ok (set_iter esp) st).
Proof.
  destruct (esp_ports_of_total available) as (esp & Hesp & Hmem).
  exists esp. split; [done|]. split; [done|].
  unfold com_port_scanner_cycle, and_then. rewrite Hesp.
  destruct (raised (connect_all py open_ok (set_iter esp) st)); split; try done.
  intros _. unfold returned. simpl. by rewrite app_nil_r.
Qed.

Lemma com_port_scanner_cycle_returns py set_iter open_ok available st :
  delivers py (connected_clients st) = true →
  raised (com_port_scanner_cycle py set_iter open_ok available st) = None.
Proof.
  intros Hd.
  destruct (com_port_scanner_cycle_unfold py set_iter open_ok available st)
    as (esp & _ & _ & Hret & _).
  rewrite Hret; [done|]. by apply connect_all_returns.
Qed.

Lemma com_port_scanner_cycle_keeps py set_iter open_ok available st p info :
  dict_get p (players st) = Some info →
  dict_get p
    (players (after (com_port_scanner_cycle py set_iter open_ok available st)))
  = Some info.
Proof.
  intros Hget.
  destruct (com_port_scanner_cycle_unfold py set_iter open_ok available st)
    as (esp & _ & _ & Hret & Hraise).
  destruct (connect_all_grows py open_ok (set_iter esp) st) as (Hkeeps & _).
  destruct (raised (connect_all py open_ok (set_iter esp) st)) eqn:Hr.
  - rewrite Hraise by done. by apply Hkeeps.
  - rewrite Hret by done. simpl.
    destruct (disconnect_all_registry
      (set_iter (list_to_set
         (keys (players (after (connect_all py open_ok (set_iter esp) st))))
         ∖ esp))
      (after (connect_all py open_ok (set_iter esp) st))) as [-> _].
    by apply Hkeeps.
Qed.

Lemma relay_cleanup_keeps py r st p info :
  registry_ok st → p ≠ port_address r →
  dict_get p (players st) = Some info →
  dict_get p (players (after (relay_cleanup py r st))) = Some info.
Proof.
  intros Hok Hne Hget. rewrite relay_cleanup_after by done.
  destruct (relay_unbind_cases r st Hok)
    as [[_ ->] | (info' & d1 & d2 & Hp & _ & _ & ->)]; [done|].
  simpl. rewrite Hp, dict_get_app in Hget. simpl in Hget.
  rewrite bool_decide_eq_false_2 in Hget by done.
  by rewrite dict_get_app.
Qed.

Lemma step_keeps py ev st port info :
  registry_ok st → is_cleanup_of port ev = false →
  dict_get port (players st) = Some info →
  dict_get port (players (after (step py ev st))) = Some info.
Proof.
  intros Hok Hev Hget.
  destruct ev as [set_iter open_ok available | open_ok p | p | r | cs];
    simpl in *.
  - by apply com_port_scanner_cycle_keeps.
  - rewrite scan_connect_after. by apply scan_bind_grows.
  - unfold scan_disconnect. by destruct (dict_get p (players st)).
  - apply relay_cleanup_keeps; [done | | done].
    apply bool_decide_eq_false in Hev. congruence.
  - done.
Qed.

(** X15: a binding stays as it is until its own relay cleans it up.
    After any one step of the scanner or of a relay, or a change of the
    client set, a bound port is still bound to the same player number
    and the same serial object, unless the step is the cleanup of a relay
    of that very port, after which the port is not bound; this is so
    whether the step returns or ends with the [TypeError] of
    [asyncio.wait], which is the only exception a step can end with, and
    only on Python 3.11 and later. In particular the scanner never
    unbinds and never renumbers a device. *)
Theorem bindings_are_stable (py : python) (ev : event) (port : pystr)
    (info : player_info) (st : bridge) :
  registry_ok st →
  dict_get port (players st) = Some info →
  (if is_cleanup_of port ev
   then dict_get port (players (after (step py ev st))) = None
   else dict_get port (players (after (step py ev st))) = Some info)
  ∧ (∀ e, raised (step py ev st) = Some e → wait_error_only py e)
  ∧ (delivers py (connected_clients st) = true → raised (step py ev st) = None).
Proof.
  intros Hok Hget. destruct (step_sound py ev st Hok) as [_ Hraise].
  split; [|split; [done|]].
  - destruct (is_cleanup_of port ev) eqn:Hev; [|by apply step_keeps].
    destruct ev as [| | | r |]; try done. simpl in *.
    apply bool_decide_eq_true in Hev. subst port.
    rewrite relay_cleanup_after by done.
    destruct (relay_unbind_cases r st Hok)
      as [[Hnot _] | (info' & d1 & d2 & _ & Hnot & _ & ->)].
    + apply dict_get_None in Hnot. congruence.
    + simpl. by apply dict_get_None.
  - intros Hd. destruct (raised (step py ev st)) as [e|] eqn:Hr; [|done].
    destruct (Hraise e eq_refl) as [_ ->]. simpl in Hd.
    apply bool_decide_eq_true in Hd.
    destruct ev as [set_iter open_ok available | open_ok p | p | r | cs];
      simpl in Hr; try done.
    + by rewrite com_port_scanner_cycle_returns in Hr
        by (simpl; by apply bool_decide_eq_true).
    + by rewrite scan_connect_returns in Hr
        by (simpl; by apply bool_decide_eq_true).
    + destruct (relay_cleanup_cases Python311 r st Hok)
        as [[_ Heq] | (info' & d1 & d2 & _ & _ & _ & Heq)];
        rewrite Heq in Hr; [done|].
      rewrite await_broadcast_outcome in Hr. simpl in Hr.
      by rewrite bool_decide_eq_true_2 in Hr.
Qed.

Lemma bindings_are_stable_witness :
  registry_ok two_players
  ∧ (if is_cleanup_of COM4
          (ScanCycle elements (λ _, true) [usb_serial_COM7])
     then dict_get COM4
            (players (after (step Python311
               (ScanCycle elements (λ _, true) [usb_serial_COM7])
               two_players))) = None
     else dict_get COM4
            (players (after (step Python311
               (ScanCycle elements (λ _, true) [usb_serial_COM7])
               two_players)))
          = Some {| player_num := 2; serial_conn := 1 |})
  ∧ (∀ e, raised (step Python311
                    (ScanCycle elements (λ _, true) [usb_serial_COM7])
                    two_players) = Some e →
          wait_error_only Python311 e)
  ∧ (delivers Python311 (connected_clients two_players) = true →
     raised (step Python311
               (ScanCycle elements (λ _, true) [usb_serial_COM7])
               two_players) = None).
Proof.
  assert (Hok : registry_ok two_players)
    by (apply (bool_decide_unpack _); vm_compute; exact I).
  split; [exact Hok|].
  apply (bindings_are_stable Python311
           (ScanCycle elements (λ _, true) [usb_serial_COM7])
           COM4 {| player_num := 2; serial_conn := 1 |} two_players Hok).
  reflexivity.
Defined.

Lemma run_keeps py port info evs st :
  registry_ok st →
  forallb (λ ev, negb (is_cleanup_of port ev)) evs = true →
  dict_get port (players st) = Some info →
  registry_ok (final (run py evs st))
  ∧ dict_get port (players (final (run py evs st))) = Some info.
Proof.
  revert st. induction evs as [|ev rest IH]; intros st Hok Hevs Hget; simpl.
  - done.
  - simpl in Hevs. apply andb_true_iff in Hevs as [Hev Hrest].
    apply negb_true_iff in Hev.
    destruct (step_sound py ev st Hok) as [Hok1 _].
    apply IH; [done..|]. by apply step_keeps.
Qed.

(** X16: the [disconnected] envelope names the number that is freed. A
    relay started on a bound port keeps that binding's number; whatever
    the scanner and the other relays do before it stops (anything but a
    cleanup for the same port) leaves the binding as it was; and the
    cleanup then removes that binding, frees exactly the number the relay
    carries, and hands [broadcast] the envelope with that number and the
    port: where [broadcast] gets through every client is sent it, and
    where it does not the cleanup ends with [TypeError], the binding
    removed all the same. *)
Theorem disconnected_names_freed_slot (py : python) (port : pystr)
    (info : player_info) (evs : list event) (st0 : bridge) :
  registry_ok st0 →
  dict_get port (players st0) = Some info →
  forallb (λ ev, negb (is_cleanup_of port ev)) evs = true →
  ∃ r st st',
    relay_start port st0 = Some r
    ∧ relay_player_num r = player_num info
    ∧ final (run py evs st0) = st
    ∧ dict_get port (players st) = Some info
    ∧ relay_cleanup py r st
      = (if delivers py (connected_clients st)
         then returned st'
                (to_every_client st
                   (status_envelope "disconnected" (player_num info) port))
         else raising st' TypeError)
    ∧ dict_get port (players st') = None
    ∧ player_num info ∈ assigned_player_nums st
    ∧ assigned_player_nums st'
      = assigned_player_nums st ∖ {[player_num info]}.
Proof.
  intros Hok Hget Hevs.
  destruct (run_keeps py port info evs st0 Hok Hevs Hget) as [Hok1 Hget1].
  set (st := final (run py evs st0)) in *.
  set (r := {| port_address := port; ser := serial_conn info;
               relay_player_num := player_num info |}).
  destruct (relay_cleanup_cases py r st Hok1)
    as [[Hnot _] | (info' & d1 & d2 & Hp & Hnot & Hget' & Hclean)].
  { apply dict_get_None in Hnot. simpl in Hnot. congruence. }
  simpl in Hget'. assert (info' = info) as -> by congruence.
  exists r, st, (unbound (d1 ++ d2) (player_num info) st).
  unfold relay_start. rewrite Hget. fold r.
  split; [done|]. split; [done|]. split; [done|]. split; [done|].
  split; [by rewrite Hclean, await_broadcast_outcome|]. simpl.
  split; [by apply dict_get_None|]. split; [|done].
  destruct Hok1 as (_ & _ & -> & _). rewrite elem_of_list_to_set, elem_of_slots.
  exists port, info. split; [by apply dict_get_Some_elem | done].
Qed.

Lemma disconnected_names_freed_slot_witness :
  registry_ok two_players
  ∧ ∃ r st st',
      relay_start COM4 two_players = Some r
      ∧ relay_player_num r = 2
      ∧ final (run Python311 [RelayCleanup relay_COM3; ScanConnect true COM7]
                 two_players) = st
      ∧ dict_get COM4 (players st) = Some {| player_num := 2; serial_conn := 1 |}
      ∧ relay_cleanup Python311 r st
        = (if delivers Python311 (connected_clients st)
           then returned st'
                  (to_every_client st (status_envelope "disconnected" 2 COM4))
           else raising st' TypeError)
      ∧ dict_get COM4 (players st') = None
      ∧ 2 ∈ assigned_player_nums st
      ∧ assigned_player_nums st' = assigned_player_nums st ∖ {[2]}.
Proof.
  assert (Hok : registry_ok two_players)
    by (apply (bool_decide_unpack _); vm_compute; exact I).
  split; [exact Hok|].
  apply (disconnected_names_freed_slot Python311 COM4
           {| player_num := 2; serial_conn := 1 |}
           [RelayCleanup relay_COM3; ScanConnect true COM7] two_players Hok);
    vm_compute; reflexivity.
Defined.

(** ** Serial objects *)

Lemma reopens_nothing_refl st : reopens_nothing st st.
Proof. split; [lia | auto]. Qed.

Lemma reopens_nothing_trans a b c :
  reopens_nothing a b → reopens_nothing b c → reopens_nothing a c.
Proof.
  intros [Hn1 Hs1] [Hn2 Hs2]. split; [lia|].
  intros s [Hs | Hs]%Hs2; [|right; lia].
  apply Hs1 in Hs as [Hs | Hs]; [by left | by right].
Qed.

Lemma grows_reopens_nothing st st' : grows st st' → reopens_nothing st st'.
Proof. by intros (_ & ? & ? & _). Qed.

Lemma disconnect_all_open ports st s :
  s ∈ open_serials (disconnect_all ports st) → s ∈ open_serials st.
Proof.
  unfold disconnect_all. revert st.
  induction ports as [|port rest IH]; intros st; simpl; [done|].
  intros Hs%IH. unfold scan_disconnect in Hs.
  destruct (dict_get port (players st)); [|done]. simpl in Hs. set_solver.
Qed.

(** A step opens only serial objects it creates. *)
Lemma step_reopens_nothing py ev st :
  registry_ok st → reopens_nothing st (after (step py ev st)).
Proof.
  intros Hok.
  destruct ev as [set_iter open_ok available | open_ok p | p | r | cs]; simpl.
  - destruct (com_port_scanner_cycle_unfold py set_iter open_ok available st)
      as (esp & _ & _ & Hret & Hraise).
    pose proof (grows_reopens_nothing _ _
                  (connect_all_grows py open_ok (set_iter esp) st)) as [Hn Ho].
    destruct (raised (connect_all py open_ok (set_iter esp) st)) eqn:Hr.
    + rewrite Hraise by done. by split.
    + rewrite Hret by done. unfold reopens_nothing. simpl.
      destruct (disconnect_all_registry
        (set_iter (list_to_set
           (keys (players (after (connect_all py open_ok (set_iter esp) st))))
           ∖ esp))
        (after (connect_all py open_ok (set_iter esp) st)))
        as (_ & _ & -> & _).
      split; [done|]. by intros s Hs%disconnect_all_open%Ho.
  - rewrite scan_connect_after. apply grows_reopens_nothing, scan_bind_grows.
  - split; [unfold scan_disconnect|].
    + by destruct (dict_get p (players st)).
    + intros s Hs. left. unfold scan_disconnect in Hs.
      destruct (dict_get p (players st)); [|done]. simpl in Hs. set_solver.
  - rewrite relay_cleanup_after by done.
    destruct (relay_unbind_cases r st Hok)
      as [[_ ->] | (info & d1 & d2 & _ & _ & _ & ->)];
      [apply reopens_nothing_refl|].
    split; [simpl; lia | by left].
  - split; [simpl; lia | by left].
Qed.

Lemma run_reopens_nothing py evs st :
  registry_ok st → reopens_nothing st (final (run py evs st)).
Proof.
  revert st. induction evs as [|ev rest IH]; intros st Hok; simpl.
  - apply reopens_nothing_refl.
  - destruct (step_sound py ev st Hok) as [Hok1 _].
    eapply reopens_nothing_trans; [by apply step_reopens_nothing | by apply IH].
Qed.

Lemma registry_ok_serial_fresh st port info :
  registry_ok st → dict_get port (players st) = Some info →
  (serial_conn info < next_serial st)%nat.
Proof.
  intros (_ & _ & _ & _ & _ & Hfresh) Hget%dict_get_Some_elem.
  rewrite Forall_forall in Hfresh. apply Hfresh.
  unfold serials, values. apply list_elem_of_fmap. exists info. split; [done|].
  apply list_elem_of_fmap. by exists (port, info).
Qed.


(** X17: a serial object that the scanner has closed stays closed, and that
    ends the relay. After the scanner's turn for a vanished port, whatever
    the scanner and the relays go on to do, on either kind of
    interpreter, never reopens the object (and raises nothing but the
    [TypeError] of [asyncio.wait] on Python 3.11 and later); so the next
    time the relay of that port tests its loop condition it leaves the
    loop, having sent nothing more, whatever the serial object would have
    answered. *)
Theorem closed_serial_ends_relay (py : python) (port : pystr)
    (info : player_info) (evs : list event) (st : bridge) :
  registry_ok st →
  dict_get port (players st) = Some info →
  ∃ r st',
    relay_start port st = Some r
    ∧ final (run py evs (scan_disconnect port st)) = st'
    ∧ Forall (wait_error_only py)
        (crashes (run py evs (scan_disconnect port st)))
    ∧ is_open (ser r) st' = false
    ∧ ∀ py' p rest, relay_loop py' r ((st', p) :: rest) = ([], true).
Proof.
  intros Hok Hget.
  pose proof (registry_ok_serial_fresh st port info Hok Hget) as Hfresh.
  pose proof (scan_disconnect_ok port st Hok) as Hok0.
  destruct (run_sound py evs _ Hok0) as [_ Hcrashes].
  destruct (run_reopens_nothing py evs _ Hok0) as [_ Hopen].
  eexists _, _. unfold relay_start. rewrite Hget.
  split; [done|]. split; [done|]. split; [done|]. simpl.
  assert (Hclosed : is_open (serial_conn info)
                      (final (run py evs (scan_disconnect port st))) = false).
  { apply bool_decide_eq_false. intros Hs. apply Hopen in Hs. revert Hs.
    unfold scan_disconnect. rewrite Hget. simpl.
    intros [Hs | Hs]; [set_solver | lia]. }
  split; [done|]. intros py' p rest. simpl. by rewrite Hclosed.
Qed.

Lemma closed_serial_ends_relay_witness :
  registry_ok two_players
  ∧ ∃ r st',
      relay_start COM3 two_players = Some r
      ∧ final (run Python311 [ScanConnect true COM7; Clients ∅]
                 (scan_disconnect COM3 two_players)) = st'
      ∧ Forall (wait_error_only Python311)
          (crashes (run Python311 [ScanConnect true COM7; Clients ∅]
                      (scan_disconnect COM3 two_players)))
      ∧ is_open (ser r) st' = false
      ∧ ∀ py' p rest, relay_loop py' r ((st', p) :: rest) = ([], true).
Proof.
  assert (Hok : registry_ok two_players)
    by (apply (bool_decide_unpack _); vm_compute; exact I).
  split; [exact Hok|].
  apply (closed_serial_ends_relay Python311 COM3
           {| player_num := 1; serial_conn := 0 |}
           [ScanConnect true COM7; Clients ∅] two_players Hok).
  reflexivity.
Defined.

(** ** Whole scanner cycles *)





(** The cycle of that witness: COM7 is bound as player 3 and announced,
    COM3 stays, and COM4, which is no longer listed, has its serial
    object closed and its binding left. *)
Example scan_cycle_binds_and_closes :
  ∃ o,
    com_port_scanner_cycle Python310 elements (λ _, true)
      [usb_serial; usb_serial_COM7] two_players = o
    ∧ raised o = None
    ∧ sent o = [(7%nat, status_envelope "connected" 3 COM7)]
    ∧ players (after o)
      = [(COM3, {| player_num := 1; serial_conn := 0 |});
         (COM4, {| player_num := 2; serial_conn := 1 |});
         (COM7, {| player_num := 3; serial_conn := 2 |})]
    ∧ is_open 0 (after o) = true
    ∧ is_open 1 (after o) = false
    ∧ is_open 2 (after o) = true.
Proof. eexists. repeat split; vm_compute; reflexivity. Qed.





(** In that cycle COM7 qualifies, is not bound before and is bound
    after. *)
Example scan_binds_new_device :
  esp_ports_of [usb_serial; usb_serial_COM7; no_description]
  = Ok ({[COM3]} ∪ ({[COM7]} ∪ ∅))
  ∧ dict_in COM7 (players two_players) = false
  ∧ dict_get COM7
      (players (after (com_port_scanner_cycle Python310 elements (λ _, true)
                         [usb_serial; usb_serial_COM7; no_description]
                         two_players)))
    = Some {| player_num := 3; serial_conn := 2 |}.
Proof. repeat split; vm_compute; reflexivity. Qed.





